(** * The Pintos sleep list of [src/devices/timer.c] and its MLFQ state

    A shallow embedding of [timer.c]: the tick counter, the list of sleeping
    threads with the MLFQ state saved in each entry, [timer_sleep], the
    interrupt handler [timer_interrupt] and the real-time sleep helpers.
    [timer_sleep] is there twice: as one function of the state, and line by
    line, with the timer interrupt free to come between its lines up to the
    point where it disables interrupts.

    [timer.c] is written against [threads/thread.h] and
    [threads/interrupt.h].  The scheduler behind [thread.h] is not part of the
    sources at hand; module [Thread] models it from the specification, on a
    state of its own that has no access to the file-static variables of
    [timer.c]. *)

From Stdlib Require Import ZArith Lia.
From stdpp Require Import base tactics option list gmap.

Open Scope Z_scope.

(** ** Machine integers *)

(** [int64_t].  ISO C leaves signed overflow undefined; the kernel is compiled
    for x86, where the addition wraps in two's complement, and the model
    writes that wrap-around out. *)
Module Int64.
Definition min : Z := - 2 ^ 63.
Definition max : Z := 2 ^ 63 - 1.
Definition in_range (z : Z) : Prop := min <= z <= max.
Definition wrap (z : Z) : Z := (z + 2 ^ 63) mod 2 ^ 64 - 2 ^ 63.
Definition add (a b : Z) : Z := wrap (a + b).
Definition mul (a b : Z) : Z := wrap (a * b).
(** Signed division truncates towards zero; C leaves a zero divisor and the
    quotient [min / -1] undefined, and the model reports both as a divide
    error. *)
Definition div (a b : Z) : option Z :=
  if (b =? 0) || ((a =? min) && (b =? -1)) then None else Some (a ÷ b).
End Int64.

(** ** Data *)

(** A [struct thread *]: threads are named by their identifier. *)
Definition tid := nat.

(** Modelled from the spec: the states of a task (running, in a ready queue,
    blocked), with the names of [enum thread_status]; [threads/thread.h] is
    not among the sources. *)
Inductive thread_status :=
  | THREAD_RUNNING
  | THREAD_READY
  | THREAD_BLOCKED
  | THREAD_DYING.

(** Modelled from the spec: [struct thread], declared in [threads/thread.h],
    which is not among the sources.  [mlfq_priority] and [ticks_at_priority]
    are the two [int] fields that [timer.c] reads and writes; [status] is
    what the block and unblock primitives maintain. *)
Record thread := mk_thread {
  status : thread_status;
  mlfq_priority : Z;
  ticks_at_priority : Z
}.

(** [struct sleeping_thread].  The two saved fields are assigned only when
    [thread_mlfqs] is set; [None] stands for a field of the stack-allocated
    entry that was never written. *)
Record sleeping_thread := mk_sleeping {
  st_thread : tid;
  wake_tick : Z;
  saved_mlfq_priority : option Z;
  saved_ticks_at_priority : option Z
}.

(** Modelled from the spec: the interrupt level of [threads/interrupt.h],
    which is not among the sources, as [timer.c] uses it. *)
Inductive intr_level_t := INTR_OFF | INTR_ON.

(** Calls that leave [timer.c], in the order they are made. *)
Inductive call :=
  | CallThreadTick
  | CallThreadBlock (t : tid)
  | CallThreadUnblock (t : tid)
  | CallBusyWait (loops : Z).

#[global] Instance thread_status_eq_dec : EqDecision thread_status.
Proof. solve_decision. Defined.
#[global] Instance thread_eq_dec : EqDecision thread.
Proof. solve_decision. Defined.
#[global] Instance sleeping_thread_eq_dec : EqDecision sleeping_thread.
Proof. solve_decision. Defined.
#[global] Instance intr_level_eq_dec : EqDecision intr_level_t.
Proof. solve_decision. Defined.
#[global] Instance call_eq_dec : EqDecision call.
Proof. solve_decision. Defined.

(** ** The scheduler behind [threads/thread.h] *)

Module Thread.

(** Modelled from the spec: the number of priority levels, L = 20, declared
    in [threads/thread.h], which is not among the sources. *)
Definition MLFQ_LEVELS : Z := 20.

(** Modelled from the spec: the boost interval of 50 ticks, declared in
    [threads/thread.h], which is not among the sources. *)
Definition BOOST_INTERVAL : Z := 50.

(** Modelled from the spec: the state owned by [thread.c], which is not
    among the sources: the policy flag, every thread of the system
    ([all_list]), the running thread, the idle thread, one FIFO per priority
    level, the single ready list of the legacy policy and the ticks since
    the last boost. *)
Record sched := mk_sched {
  thread_mlfqs : bool;
  all_threads : gmap tid thread;
  current : tid;
  idle_thread : tid;
  mlfq_queues : list (list tid);
  ready_list : list tid;
  boost_ticks : Z
}.

Definition with_threads (m : gmap tid thread) (sc : sched) : sched :=
  mk_sched (thread_mlfqs sc) m (current sc) (idle_thread sc)
           (mlfq_queues sc) (ready_list sc) (boost_ticks sc).
Definition with_current (t : tid) (sc : sched) : sched :=
  mk_sched (thread_mlfqs sc) (all_threads sc) t (idle_thread sc)
           (mlfq_queues sc) (ready_list sc) (boost_ticks sc).
Definition with_queues (qs : list (list tid)) (sc : sched) : sched :=
  mk_sched (thread_mlfqs sc) (all_threads sc) (current sc) (idle_thread sc)
           qs (ready_list sc) (boost_ticks sc).
Definition with_ready (l : list tid) (sc : sched) : sched :=
  mk_sched (thread_mlfqs sc) (all_threads sc) (current sc) (idle_thread sc)
           (mlfq_queues sc) l (boost_ticks sc).
Definition with_boost (b : Z) (sc : sched) : sched :=
  mk_sched (thread_mlfqs sc) (all_threads sc) (current sc) (idle_thread sc)
           (mlfq_queues sc) (ready_list sc) b.

Definition set_status (st : thread_status) (th : thread) : thread :=
  mk_thread st (mlfq_priority th) (ticks_at_priority th).
Definition set_mlfq_priority (p : Z) (th : thread) : thread :=
  mk_thread (status th) p (ticks_at_priority th).
Definition set_ticks_at_priority (n : Z) (th : thread) : thread :=
  mk_thread (status th) (mlfq_priority th) n.

(** [t->field = v] through a thread pointer. *)
Definition update (f : thread -> thread) (t : tid) (sc : sched) : sched :=
  with_threads (alter f t (all_threads sc)) sc.

(** Modelled from the spec: the quantum of level [p] is [(L-1-p)+1] ticks;
    [thread.c] is not among the sources. *)
Definition quantum (p : Z) : Z := (MLFQ_LEVELS - 1 - p) + 1.

(** Modelled from the spec: steps 1 to 3 of [on_tick] for the running
    thread (count the tick, demote on an exhausted quantum, restart the
    quantum at the floor); [thread.c] is not among the sources. *)
Definition account (th : thread) : thread :=
  let p := mlfq_priority th in
  let n := ticks_at_priority th + 1 in
  if quantum p <=? n
  then (if 0 <? p then mk_thread (status th) (p - 1) 0
        else mk_thread (status th) p 0)
  else mk_thread (status th) p n.

(** Modelled from the spec: a boosted thread is at the top level with no
    tick used; [thread.c] is not among the sources. *)
Definition boosted (th : thread) : thread :=
  mk_thread (status th) (MLFQ_LEVELS - 1) 0.

(** Modelled from the spec: [boost_all] ([mlfq_boost_all] in the README)
    sets every thread of the system, ready, running or blocked, to the top
    level with a fresh quantum, and moves the ready threads of the lower
    levels behind those of the top FIFO, level by level.  It walks
    [all_list] and the queues of [thread.c]; the entries of [sleep_list]
    are out of its reach, since the list is static in [timer.c] and
    [timer.c] exports nothing that writes a saved field. *)
Definition mlfq_boost_all (sc : sched) : sched :=
  let qs := mlfq_queues sc in
  let top := Z.to_nat (MLFQ_LEVELS - 1) in
  with_queues (replicate top [] ++ [default [] (qs !! top) ++ concat (take top qs)])
    (with_threads (boosted <$> all_threads sc) sc).

(** Modelled from the spec: [on_tick] ([thread_tick]); a no-op under the
    legacy policy; [thread.c] is not among the sources. *)
Definition thread_tick (sc : sched) : sched :=
  if thread_mlfqs sc then
    let sc1 := if decide (current sc = idle_thread sc) then sc
               else update account (current sc) sc in
    let b := boost_ticks sc1 + 1 in
    if BOOST_INTERVAL <=? b then with_boost 0 (mlfq_boost_all sc1)
    else with_boost b sc1
  else sc.

(** Modelled from the spec: [enqueue] appends to the FIFO of the thread's
    level, or to the single ready list under the legacy policy; a level
    outside the array has no FIFO.  [thread.c] is not among the sources. *)
Definition enqueue (t : tid) (sc : sched) : sched :=
  if thread_mlfqs sc then
    match all_threads sc !! t with
    | Some th =>
        let p := mlfq_priority th in
        if p <? 0 then sc
        else with_queues (alter (λ q, q ++ [t]) (Z.to_nat p) (mlfq_queues sc)) sc
    | None => sc
    end
  else with_ready (ready_list sc ++ [t]) sc.

(** Modelled from the spec: the scan of the levels [n-1], ..., 0 for the
    first non-empty FIFO; [thread.c] is not among the sources. *)
Fixpoint scan_queues (n : nat) (qs : list (list tid))
  : option (tid * list (list tid)) :=
  match n with
  | O => None
  | S i =>
      match qs !! i with
      | Some (t :: q) => Some (t, <[i := q]> qs)
      | _ => scan_queues i qs
      end
  end.

(** Modelled from the spec: [dequeue_for_run] ([next_thread_to_run] in the
    README) takes the head of the highest non-empty level, or the idle
    thread; [thread.c] is not among the sources. *)
Definition next_thread_to_run (sc : sched) : tid * sched :=
  if thread_mlfqs sc then
    match scan_queues (Z.to_nat MLFQ_LEVELS) (mlfq_queues sc) with
    | Some (t, qs) => (t, with_queues qs sc)
    | None => (idle_thread sc, sc)
    end
  else
    match ready_list sc with
    | t :: l => (t, with_ready l sc)
    | [] => (idle_thread sc, sc)
    end.

(** Modelled from the spec: the dispatcher switches to the result of
    [dequeue_for_run]; [thread.c] is not among the sources. *)
Definition schedule (sc : sched) : sched :=
  let '(t, sc1) := next_thread_to_run sc in
  with_current t (update (set_status THREAD_RUNNING) t sc1).

(** Modelled from the spec: the running task; [thread.c] is not among the
    sources. *)
Definition thread_current (sc : sched) : tid := current sc.

(** Modelled from the spec: the block primitive marks the running thread
    blocked and relinquishes the CPU; [thread.c] is not among the
    sources. *)
Definition thread_block (sc : sched) : sched :=
  schedule (update (set_status THREAD_BLOCKED) (current sc) sc).

(** Modelled from the spec: the unblock primitive makes the thread ready
    and hands it to [enqueue], without a guard on its former state;
    [thread.c] is not among the sources. *)
Definition thread_unblock (t : tid) (sc : sched) : sched :=
  enqueue t (update (set_status THREAD_READY) t sc).

(** Modelled from the spec: a voluntary yield re-enters the running thread
    at the tail of its level and dispatches; the idle thread is never in a
    FIFO.  [thread.c] is not among the sources. *)
Definition thread_yield (sc : sched) : sched :=
  let c := current sc in
  schedule (if decide (c = idle_thread sc) then sc
            else enqueue c (update (set_status THREAD_READY) c sc)).

(** The threads of the ready structure. *)
Definition ready_threads (sc : sched) : list tid :=
  concat (mlfq_queues sc) ++ ready_list sc.

End Thread.

Import Thread.

(** ** The state of the kernel as [timer.c] sees it *)

(** [ticks], [loops_per_tick] and [sleep_list] are the static variables of
    [timer.c]; [intr_level] is the interrupt flag of [threads/interrupt.h];
    [threads] is the state of [thread.c]; [calls] logs the calls made. *)
Record kernel := mk_kernel {
  ticks : Z;
  loops_per_tick : Z;
  sleep_list : list sleeping_thread;
  intr_level : intr_level_t;
  threads : sched;
  calls : list call
}.

Definition with_ticks (t : Z) (k : kernel) : kernel :=
  mk_kernel t (loops_per_tick k) (sleep_list k) (intr_level k) (threads k) (calls k).
Definition with_sleep_list (l : list sleeping_thread) (k : kernel) : kernel :=
  mk_kernel (ticks k) (loops_per_tick k) l (intr_level k) (threads k) (calls k).
Definition with_intr_level (i : intr_level_t) (k : kernel) : kernel :=
  mk_kernel (ticks k) (loops_per_tick k) (sleep_list k) i (threads k) (calls k).
Definition with_sched (sc : sched) (k : kernel) : kernel :=
  mk_kernel (ticks k) (loops_per_tick k) (sleep_list k) (intr_level k) sc (calls k).
Definition log (c : call) (k : kernel) : kernel :=
  mk_kernel (ticks k) (loops_per_tick k) (sleep_list k) (intr_level k) (threads k)
            (calls k ++ [c]).

(** The result of a kernel function: the next state, or a kernel panic (a
    failed [ASSERT], a divide error). *)
Inductive outcome :=
  | Ok (k : kernel)
  | Panic.

(** *** [threads/interrupt.h] *)

(** Modelled from the spec: reading the interrupt level;
    [threads/interrupt.c] is not among the sources. *)
Definition intr_get_level (k : kernel) : intr_level_t := intr_level k.
(** Modelled from the spec: setting the interrupt level;
    [threads/interrupt.c] is not among the sources. *)
Definition intr_set_level (l : intr_level_t) (k : kernel) : kernel :=
  with_intr_level l k.
(** Modelled from the spec: excluding the interrupt; [intr_disable] returns
    the previous level, which [timer.c] puts back.  [threads/interrupt.c] is
    not among the sources. *)
Definition intr_disable (k : kernel) : intr_level_t * kernel :=
  (intr_level k, with_intr_level INTR_OFF k).

(** *** [threads/thread.h], as called from [timer.c] *)

Definition k_thread_current (k : kernel) : tid := thread_current (threads k).
Definition k_thread_tick (k : kernel) : kernel :=
  log CallThreadTick (with_sched (thread_tick (threads k)) k).
Definition k_thread_block (k : kernel) : kernel :=
  log (CallThreadBlock (current (threads k)))
      (with_sched (thread_block (threads k)) k).
Definition k_thread_unblock (t : tid) (k : kernel) : kernel :=
  log (CallThreadUnblock t) (with_sched (thread_unblock t (threads k)) k).

(** Field reads through a thread pointer. *)
Definition thread_field {A} (f : thread -> A) (t : tid) (k : kernel) : option A :=
  f <$> all_threads (threads k) !! t.

(** ** [timer.c] *)

(** [timer_ticks]: reads [ticks] with interrupts disabled and puts the level
    back. *)
Definition timer_ticks (k : kernel) : Z * kernel :=
  let '(old_level, k1) := intr_disable k in
  let t := ticks k1 in
  (t, intr_set_level old_level k1).

(** [list_push_back (&sleep_list, &st.elem)]. *)
Definition list_push_back (st : sleeping_thread) (k : kernel) : kernel :=
  with_sleep_list (sleep_list k ++ [st]) k.

(** [timer_sleep], up to the point where the caller is suspended inside
    [thread_block]: lines 143 to 169.  Line 170, [intr_set_level (old_level)],
    runs when the thread is dispatched again.  This is the call that no
    timer interrupt cuts into.  The function runs with interrupts on up to
    line 167; [timer_sleep_enter] and [timer_sleep_line] below are its
    lines one by one, for the calls that an interrupt does cut into. *)
Definition timer_sleep (sleep_ticks : Z) (k : kernel) : outcome :=
  let '(start, k) := timer_ticks k in
  let cur := k_thread_current k in
  if decide (intr_get_level k = INTR_ON) then
    if sleep_ticks <=? 0 then Ok k
    else
      let mlfqs := thread_mlfqs (threads k) in
      let st :=
        {| st_thread := cur;
           wake_tick := Int64.add start sleep_ticks;
           saved_mlfq_priority :=
             if mlfqs then thread_field mlfq_priority cur k else None;
           saved_ticks_at_priority :=
             if mlfqs then thread_field ticks_at_priority cur k else None |} in
      let '(old_level, k) := intr_disable k in
      let k := list_push_back st k in
      Ok (k_thread_block k)
  else Panic.

(** Line 170 of [timer_sleep], run by the sleeper once it is dispatched
    again; [old_level] is [INTR_ON] by the assertion of line 147. *)
Definition timer_sleep_resume (k : kernel) : kernel :=
  intr_set_level INTR_ON k.

(** Lines 284 to 288: the saved MLFQ state goes back into the thread. *)
Definition restore (st : sleeping_thread) (k : kernel) : kernel :=
  let t := st_thread st in
  let sc := threads k in
  let sc := match saved_mlfq_priority st with
            | Some p => update (set_mlfq_priority p) t sc
            | None => sc
            end in
  let sc := match saved_ticks_at_priority st with
            | Some n => update (set_ticks_at_priority n) t sc
            | None => sc
            end in
  with_sched sc k.

(** Lines 279 to 292: one sleeper is woken.  [rest] is the sleep list without
    its entry, as [list_remove] leaves it. *)
Definition wake (st : sleeping_thread) (rest : list sleeping_thread)
    (k : kernel) : kernel :=
  let k := if thread_mlfqs (threads k) then restore st k else k in
  let k := with_sleep_list rest k in
  k_thread_unblock (st_thread st) k.

(** The loop of [timer_interrupt], lines 271 to 299.  The cursor [e] stands
    between the entries already visited and kept, [before], and those still
    to visit, [after]; the sleep list is [before ++ after] on entry of each
    iteration. *)
Fixpoint wake_loop (before after : list sleeping_thread) (k : kernel) : kernel :=
  match after with
  | [] => k
  | st :: after' =>
      if wake_tick st <=? ticks k
      then wake_loop before after' (wake st (before ++ after') k)
      else wake_loop (before ++ [st]) after' k
  end.

(** [timer_interrupt].  It runs with interrupts off and returns to the level
    of the interrupted code, so the level of the state is left as it is. *)
Definition timer_interrupt (k : kernel) : kernel :=
  let k := with_ticks (Int64.add (ticks k) 1) k in
  let k := k_thread_tick k in
  wake_loop [] (sleep_list k) k.

(** [busy_wait]: spins [loops] times; nothing but time passes. *)
Definition busy_wait (loops : Z) (k : kernel) : kernel :=
  log (CallBusyWait loops) k.

Section RealTime.

(** [TIMER_FREQ] comes from [devices/timer.h], which is not among the
    sources; [timer.c] refuses values outside 19..1000 at compile time. *)
Variable TIMER_FREQ : Z.

(** [real_time_delay]: [ASSERT (denom % 1000 == 0)], then the busy wait.  The
    product with the [unsigned] [loops_per_tick] is computed in [int64_t]. *)
Definition real_time_delay (num denom : Z) (k : kernel) : outcome :=
  if decide (Z.rem denom 1000 = 0) then
    let n1 := Int64.mul (loops_per_tick k) num in
    let n2 := Int64.mul (n1 ÷ 1000) TIMER_FREQ in
    match Int64.div n2 (denom ÷ 1000) with
    | Some loops => Ok (busy_wait loops k)
    | None => Panic
    end
  else Panic.

(** [real_time_sleep]. *)
Definition real_time_sleep (num denom : Z) (k : kernel) : outcome :=
  match Int64.div (Int64.mul num TIMER_FREQ) denom with
  | Some sleep_ticks =>
      if decide (intr_get_level k = INTR_ON) then
        if 0 <? sleep_ticks then timer_sleep sleep_ticks k
        else real_time_delay num denom k
      else Panic
  | None => Panic
  end.

Definition timer_msleep (ms : Z) : kernel -> outcome :=
  real_time_sleep ms 1000.
Definition timer_usleep (us : Z) : kernel -> outcome :=
  real_time_sleep us (1000 * 1000).
Definition timer_nsleep (ns : Z) : kernel -> outcome :=
  real_time_sleep ns (1000 * 1000 * 1000).

End RealTime.

(** ** Executions *)

(** An entry is due at tick [now] when [ticks >= st->wake_tick] holds. *)
Definition expired (now : Z) (st : sleeping_thread) : Prop :=
  wake_tick st <= now.

#[global] Instance expired_dec now st : Decision (expired now st).
Proof. unfold expired. apply _. Defined.

(** The sleepers an interrupt at tick [now] wakes, and those it leaves. *)
Definition due (now : Z) (l : list sleeping_thread) : list sleeping_thread :=
  filter (expired now) l.
Definition pending (now : Z) (l : list sleeping_thread) : list sleeping_thread :=
  filter (λ st, ¬ expired now st) l.

(** The calls made between two states. *)
Definition new_calls (k k' : kernel) : list call :=
  drop (length (calls k)) (calls k').

(** The threads asleep in [timer_sleep]. *)
Definition sleepers (k : kernel) : list tid := st_thread <$> sleep_list k.

(** The thread that is switched to goes on behind its own suspension point
    and puts its interrupt level back, as line 170 does for a sleeper. *)
Definition dispatched (k : kernel) : kernel := timer_sleep_resume k.

(** [thread_yield], called by the running thread; [timer.c] takes no part in
    it, and nothing is logged. *)
Definition k_thread_yield (k : kernel) : kernel :=
  with_sched (thread_yield (threads k)) k.

(** One step of the kernel, as far as [timer.c] takes part in it: a timer
    interrupt, a call of [timer_sleep] by the running thread (the idle thread
    never sleeps), or a yield of the running thread.  The call is one step
    here, with no interrupt between its lines; the runs in which interrupts
    and preemptions come between the lines of a call are those of [mstep]
    below, which has every run of [step] among its own. *)
Inductive step : kernel -> kernel -> Prop :=
  | step_tick k :
      step k (timer_interrupt k)
  | step_sleep k d k' :
      current (threads k) ≠ idle_thread (threads k) ->
      timer_sleep d k = Ok k' ->
      step k (dispatched k')
  | step_yield k :
      step k (dispatched (k_thread_yield k)).

(** A step that ends before tick [deadline]. *)
Definition step_before (deadline : Z) (k k' : kernel) : Prop :=
  step k k' /\ ticks k' < deadline.

(** *** Well-formed states *)

Definition level_ok (p : Z) : Prop := 0 <= p < MLFQ_LEVELS.

(** What [schedule] relies on, for the threads [zs] that are asleep: they are
    distinct, blocked, not the idle thread and in no ready queue; the ready
    queues hold no thread twice and not the idle thread; the idle and the
    ready threads exist; there is one FIFO per level and every priority
    names a level. *)
Definition sched_pre (zs : list tid) (sc : sched) : Prop :=
  NoDup zs
  ∧ Forall (λ t, (status <$> all_threads sc !! t) = Some THREAD_BLOCKED
                 ∧ t ≠ idle_thread sc
                 ∧ t ∉ ready_threads sc) zs
  ∧ NoDup (ready_threads sc)
  ∧ (idle_thread sc ∉ ready_threads sc)
  ∧ Forall (λ t, is_Some (all_threads sc !! t))
           (idle_thread sc :: ready_threads sc)
  ∧ length (mlfq_queues sc) = Z.to_nat MLFQ_LEVELS
  ∧ map_Forall (λ _ th, level_ok (mlfq_priority th)) (all_threads sc).

(** What the scheduler keeps true between its operations: in addition, the
    running thread exists, is not asleep and is in no ready queue. *)
Definition sched_wf (zs : list tid) (sc : sched) : Prop :=
  sched_pre zs sc
  ∧ is_Some (all_threads sc !! current sc)
  ∧ (current sc ∉ zs)
  ∧ (current sc ∉ ready_threads sc).

(** A snapshot, where one was taken, names a level. *)
Definition snapshot_ok (st : sleeping_thread) : Prop :=
  match saved_mlfq_priority st with
  | Some p => level_ok p
  | None => True
  end.

Definition wf (k : kernel) : Prop :=
  sched_wf (sleepers k) (threads k) ∧ Forall snapshot_ok (sleep_list k).

#[global] Instance level_ok_dec p : Decision (level_ok p).
Proof. unfold level_ok. apply _. Defined.
#[global] Instance snapshot_ok_dec st : Decision (snapshot_ok st).
Proof. unfold snapshot_ok. destruct (saved_mlfq_priority st); apply _. Defined.

(** The MLFQ state of a thread, as [timer.c] reads it: [mlfq_priority] and
    [ticks_at_priority]. *)
Definition mlfq_fields (th : thread) : Z * Z :=
  (mlfq_priority th, ticks_at_priority th).
Definition mlfq_state (t : tid) (k : kernel) : option (Z * Z) :=
  mlfq_fields <$> all_threads (threads k) !! t.
Definition thread_state (t : tid) (k : kernel) : option thread_status :=
  status <$> all_threads (threads k) !! t.

(** What [wake] does to the thread of the entry: the saved fields go back in
    under MLFQ, and [thread_unblock] makes it ready. *)
Definition woken (mlfqs : bool) (st : sleeping_thread) (th : thread) : thread :=
  let th := if mlfqs then
              let th := from_option (λ p, set_mlfq_priority p th) th
                                    (saved_mlfq_priority st) in
              from_option (λ n, set_ticks_at_priority n th) th
                          (saved_ticks_at_priority st)
            else th in
  set_status THREAD_READY th.

(** The entry [timer_sleep] builds for a caller that sleeps [d] ticks. *)
Definition sleep_entry (d : Z) (k : kernel) : sleeping_thread :=
  let cur := k_thread_current k in
  let mlfqs := thread_mlfqs (threads k) in
  {| st_thread := cur;
     wake_tick := Int64.add (ticks k) d;
     saved_mlfq_priority :=
       if mlfqs then thread_field mlfq_priority cur k else None;
     saved_ticks_at_priority :=
       if mlfqs then thread_field ticks_at_priority cur k else None |}.

(** *** Sample states *)

(** Two threads besides the idle thread 0: thread 1 runs at the floor with 3
    ticks of its quantum used, thread 2 is ready at level 7; tick 5, five
    ticks after the last boost. *)
Definition sample_sched (mlfqs : bool) : sched :=
  {| thread_mlfqs := mlfqs;
     all_threads :=
       <[2%nat := mk_thread THREAD_READY 7 1]>
         (<[1%nat := mk_thread THREAD_RUNNING 0 3]>
            (<[0%nat := mk_thread THREAD_BLOCKED 19 0]> ∅));
     current := 1%nat;
     idle_thread := 0%nat;
     mlfq_queues := if mlfqs then <[7%nat := [2%nat]]> (replicate 20 []) else replicate 20 [];
     ready_list := if mlfqs then [] else [2%nat];
     boost_ticks := 5 |}.

Definition sample_kernel (mlfqs : bool) : kernel :=
  {| ticks := 5;
     loops_per_tick := 1024;
     sleep_list := [];
     intr_level := INTR_ON;
     threads := sample_sched mlfqs;
     calls := [] |}.

(** The scenario of the specification: a lone thread at level 0 with 3 ticks
    used sleeps at tick 5 for 100 ticks; the boost counter stands at 5, so
    that the next boost falls on tick 50. *)
Definition lone_sleeper : kernel :=
  {| ticks := 5;
     loops_per_tick := 1024;
     sleep_list := [];
     intr_level := INTR_ON;
     threads :=
       {| thread_mlfqs := true;
          all_threads :=
            <[1%nat := mk_thread THREAD_RUNNING 0 3]>
              (<[0%nat := mk_thread THREAD_BLOCKED 19 0]> ∅);
          current := 1%nat;
          idle_thread := 0%nat;
          mlfq_queues := replicate 20 [];
          ready_list := [];
          boost_ticks := 5 |};
     calls := [] |}.

(** The state once the running thread sleeps for [d] ticks and the next
    thread is under way. *)
Definition asleep_for (d : Z) (k : kernel) : kernel :=
  match timer_sleep d k with
  | Ok k' => dispatched k'
  | Panic => k
  end.

(** A state in which three sleepers were registered in the order 1, 2, 3:
    1 and 3 are due at tick 6, 2 at tick 9. *)
Definition three_sleepers : kernel :=
  {| ticks := 5;
     loops_per_tick := 1024;
     sleep_list :=
       [ mk_sleeping 1%nat 6 (Some 4) (Some 0);
         mk_sleeping 2%nat 9 (Some 19) (Some 0);
         mk_sleeping 3%nat 6 (Some 4) (Some 1) ];
     intr_level := INTR_ON;
     threads :=
       {| thread_mlfqs := true;
          all_threads :=
            <[3%nat := mk_thread THREAD_BLOCKED 4 1]>
              (<[2%nat := mk_thread THREAD_BLOCKED 19 0]>
                 (<[1%nat := mk_thread THREAD_BLOCKED 4 0]>
                    (<[0%nat := mk_thread THREAD_RUNNING 19 0]> ∅)));
          current := 0%nat;
          idle_thread := 0%nat;
          mlfq_queues := replicate 20 [];
          ready_list := [];
          boost_ticks := 5 |};
     calls := [] |}.

(** ** The rest of [timer.c] *)

(** [int64_t] subtraction, wrapping like the addition. *)
Definition Int64_sub (a b : Z) : Z := Int64.wrap (a - b).

Definition with_loops_per_tick (l : Z) (k : kernel) : kernel :=
  mk_kernel (ticks k) l (sleep_list k) (intr_level k) (threads k) (calls k).

(** [timer_init]: [list_init (&sleep_list)].  The programming of the 8254 and
    the registration of the handler are hardware set-up outside the state. *)
Definition timer_init (k : kernel) : kernel := with_sleep_list [] k.

(** [timer_elapsed]: [timer_ticks () - then]. *)
Definition timer_elapsed (then_ : Z) (k : kernel) : Z * kernel :=
  let '(t, k) := timer_ticks k in
  (Int64_sub t then_, k).

(** [timer_mdelay], [timer_udelay], [timer_ndelay]. *)
Definition timer_mdelay (TIMER_FREQ ms : Z) : kernel -> outcome :=
  real_time_delay TIMER_FREQ ms 1000.
Definition timer_udelay (TIMER_FREQ us : Z) : kernel -> outcome :=
  real_time_delay TIMER_FREQ us (1000 * 1000).
Definition timer_ndelay (TIMER_FREQ ns : Z) : kernel -> outcome :=
  real_time_delay TIMER_FREQ ns (1000 * 1000 * 1000).

(** [unsigned]: 32 bits, wrapping. *)
Module UInt32.
Definition modulus : Z := 2 ^ 32.
Definition wrap (z : Z) : Z := z mod modulus.
Definition shl (a n : Z) : Z := wrap (Z.shiftl a n).
End UInt32.

Section Calibrate.

(** [too_many_loops (loops)] times a busy wait against the tick counter, so
    its answer is a matter of real time; it is taken as given, one answer
    per loop count.  [timer_calibrate] never asks about the same count
    twice. *)
Variable too_many_loops : Z -> bool.

(** The first loop of [timer_calibrate], lines 91 to 95: double
    [loops_per_tick] until twice its value is too many.  The result is
    [Some (Some l)] at the exit of the loop, [Some None] where
    [ASSERT (loops_per_tick != 0)] fails, and [None] when [fuel] runs out. *)
Fixpoint calibrate_double (fuel : nat) (l : Z) : option (option Z) :=
  match fuel with
  | O => None
  | S fuel' =>
      if too_many_loops (UInt32.shl l 1) then Some (Some l)
      else
        let l := UInt32.shl l 1 in
        if l =? 0 then Some None else calibrate_double fuel' l
  end.

(** The second loop, lines 98 to 101: from [test_bit = high_bit >> 1] down to
    but without [high_bit >> 10], keep each bit with which the loops are not
    too many.  [None] when [fuel] runs out. *)
Fixpoint calibrate_refine (fuel : nat) (high_bit test_bit l : Z) : option Z :=
  if test_bit =? Z.shiftr high_bit 10 then Some l
  else
    match fuel with
    | O => None
    | S fuel' =>
        calibrate_refine fuel' high_bit (Z.shiftr test_bit 1)
          (if too_many_loops (Z.lor l test_bit) then l else Z.lor l test_bit)
    end.

(** [timer_calibrate], without its two [printf]s.  The interrupts that arrive
    while it measures are steps of their own.  [None] when [fuel] runs
    out. *)
Definition timer_calibrate_fuel (fuel : nat) (k : kernel) : option outcome :=
  if decide (intr_get_level k = INTR_ON) then
    match calibrate_double fuel (UInt32.shl 1 10) with
    | None => None
    | Some None => Some Panic
    | Some (Some l) =>
        let high_bit := l in
        match calibrate_refine fuel high_bit (Z.shiftr high_bit 1) l with
        | None => None
        | Some l => Some (Ok (with_loops_per_tick l k))
        end
    end
  else Some Panic.

(** Neither loop goes round more than 32 times. *)
Definition timer_calibrate : kernel -> option outcome :=
  timer_calibrate_fuel 32.

End Calibrate.

(** A measurement with a sharp threshold: [loops] iterations are too many
    exactly when they exceed the [limit] that fits in one tick. *)
Definition threshold (limit loops : Z) : bool := limit <? loops.

(** ** [timer_sleep], line by line *)

(** [timer_sleep] disables interrupts at line 167 only: up to there the timer
    interrupt can come between any two of its lines, and with it a
    preemption.  Lines 143 to 155 read [ticks] once, inside [timer_ticks],
    and then work on locals; lines 159, 161 and 162 read one shared variable
    each; lines 167 to 169 run with interrupts off.  A caller inside the
    function stands before one of these four lines. *)
Inductive sleep_line := Line159 | Line161 | Line162 | Line167.

(** The caller's frame: the line it stands before and its local [st]
    ([cur] is [st.thread] from line 154 on). *)
Record sleep_frame := mk_frame {
  next_line : sleep_line;
  local_st : sleeping_thread
}.

(** How the first lines of [timer_sleep] end: with the [return] of line 151,
    inside the function before line 159, or on the assertion of line 147. *)
Inductive entered :=
  | Returned (k : kernel)
  | Sleeping (k : kernel) (f : sleep_frame)
  | Failed.

(** Lines 143 to 155 of [timer_sleep]. *)
Definition timer_sleep_enter (sleep_ticks : Z) (k : kernel) : entered :=
  let '(start, k) := timer_ticks k in
  let cur := k_thread_current k in
  if decide (intr_get_level k = INTR_ON) then
    if sleep_ticks <=? 0 then Returned k
    else
      Sleeping k (mk_frame Line159
                    {| st_thread := cur;
                       wake_tick := Int64.add start sleep_ticks;
                       saved_mlfq_priority := None;
                       saved_ticks_at_priority := None |})
  else Failed.

(** The next line of [timer_sleep]: the test of line 159, the read of line
    161, the read of line 162, or lines 167 to 169, after which the caller is
    suspended inside [thread_block] and the frame is done with. *)
Definition timer_sleep_line (f : sleep_frame) (k : kernel)
  : kernel * option sleep_frame :=
  let st := local_st f in
  let cur := st_thread st in
  match next_line f with
  | Line159 =>
      (k, Some (mk_frame (if thread_mlfqs (threads k) then Line161 else Line167)
                         st))
  | Line161 =>
      (k, Some (mk_frame Line162
                  {| st_thread := st_thread st;
                     wake_tick := wake_tick st;
                     saved_mlfq_priority := thread_field mlfq_priority cur k;
                     saved_ticks_at_priority := saved_ticks_at_priority st |}))
  | Line162 =>
      (k, Some (mk_frame Line167
                  {| st_thread := st_thread st;
                     wake_tick := wake_tick st;
                     saved_mlfq_priority := saved_mlfq_priority st;
                     saved_ticks_at_priority :=
                       thread_field ticks_at_priority cur k |}))
  | Line167 =>
      let '(old_level, k) := intr_disable k in
      let k := list_push_back st k in
      (k_thread_block k, None)
  end.

(** The kernel together with the frames of the threads that are inside
    [timer_sleep] before line 167, running or preempted. *)
Record machine := mk_machine {
  kern : kernel;
  frames : gmap tid sleep_frame
}.

(** One step of the machine: a timer interrupt; a yield or preemption of the
    running thread; a call of [timer_sleep] by the running thread (the idle
    thread never sleeps, and a thread calls it from outside) that returns at
    line 151 or gets past it; the next line of the running thread that has
    no effect beyond its frame; or its lines 167 to 169. *)
Inductive mstep : machine -> machine -> Prop :=
  | mstep_tick m :
      mstep m (mk_machine (timer_interrupt (kern m)) (frames m))
  | mstep_yield m :
      mstep m (mk_machine (dispatched (k_thread_yield (kern m))) (frames m))
  | mstep_return m d k :
      current (threads (kern m)) ≠ idle_thread (threads (kern m)) ->
      frames m !! current (threads (kern m)) = None ->
      timer_sleep_enter d (kern m) = Returned k ->
      mstep m (mk_machine k (frames m))
  | mstep_enter m d k f :
      current (threads (kern m)) ≠ idle_thread (threads (kern m)) ->
      frames m !! current (threads (kern m)) = None ->
      timer_sleep_enter d (kern m) = Sleeping k f ->
      mstep m (mk_machine k (<[current (threads (kern m)) := f]> (frames m)))
  | mstep_line m f k f' :
      frames m !! current (threads (kern m)) = Some f ->
      timer_sleep_line f (kern m) = (k, Some f') ->
      mstep m (mk_machine k (<[current (threads (kern m)) := f']> (frames m)))
  | mstep_block m f k :
      frames m !! current (threads (kern m)) = Some f ->
      timer_sleep_line f (kern m) = (k, None) ->
      mstep m (mk_machine (dispatched k)
                          (delete (current (threads (kern m))) (frames m))).

(** A step during which thread [t] stays inside [timer_sleep], short of line
    167. *)
Definition in_window (t : tid) (m m' : machine) : Prop :=
  mstep m m' /\ is_Some (frames m' !! t).

(** The machine under a scheduler that decides what comes next: an
    interrupt, a yield, a call of [timer_sleep] or the next line of the
    running thread.  [None] when that cannot come next. *)
Inductive action := Tick | Yield | Sleep (d : Z) | Line.

Definition perform (a : action) (m : machine) : option machine :=
  let t := current (threads (kern m)) in
  match a with
  | Tick => Some (mk_machine (timer_interrupt (kern m)) (frames m))
  | Yield => Some (mk_machine (dispatched (k_thread_yield (kern m))) (frames m))
  | Sleep d =>
      if decide (t = idle_thread (threads (kern m))) then None
      else
        match frames m !! t, timer_sleep_enter d (kern m) with
        | None, Sleeping k f => Some (mk_machine k (<[t := f]> (frames m)))
        | None, Returned k => Some (mk_machine k (frames m))
        | _, _ => None
        end
  | Line =>
      match frames m !! t with
      | Some f =>
          match timer_sleep_line f (kern m) with
          | (k, Some f') => Some (mk_machine k (<[t := f']> (frames m)))
          | (k, None) => Some (mk_machine (dispatched k) (delete t (frames m)))
          end
      | None => None
      end
  end.

Fixpoint perform_all (l : list action) (m : machine) : option machine :=
  match l with
  | [] => Some m
  | a :: l =>
      match perform a m with
      | Some m' => perform_all l m'
      | None => None
      end
  end.

(** The same while thread [t] stays inside [timer_sleep]. *)
Fixpoint perform_within (t : tid) (l : list action) (m : machine)
  : option machine :=
  match l with
  | [] => Some m
  | a :: l =>
      match perform a m with
      | Some m' =>
          if decide (is_Some (frames m' !! t)) then perform_within t l m'
          else None
      | None => None
      end
  end.

(** Well-formed machines: the kernel is well formed, and every frame belongs
    to a thread other than the idle thread, names that thread, and holds a
    level where it holds a priority. *)
Definition frame_ok (k : kernel) (t : tid) (f : sleep_frame) : Prop :=
  st_thread (local_st f) = t
  ∧ t ≠ idle_thread (threads k)
  ∧ snapshot_ok (local_st f).

Definition mwf (m : machine) : Prop :=
  wf (kern m) ∧ map_Forall (frame_ok (kern m)) (frames m).

(** Thread 1 runs at level 18, whose quantum is 2 ticks, with 1 tick used;
    thread 2 is ready at level 7; tick 5, five ticks after the last boost. *)
Definition quantum_nearly_used : kernel :=
  {| ticks := 5;
     loops_per_tick := 1024;
     sleep_list := [];
     intr_level := INTR_ON;
     threads :=
       {| thread_mlfqs := true;
          all_threads :=
            <[2%nat := mk_thread THREAD_READY 7 1]>
              (<[1%nat := mk_thread THREAD_RUNNING 18 1]>
                 (<[0%nat := mk_thread THREAD_BLOCKED 19 0]> ∅));
          current := 1%nat;
          idle_thread := 0%nat;
          mlfq_queues := <[7%nat := [2%nat]]> (replicate 20 []);
          ready_list := [];
          boost_ticks := 5 |};
     calls := [] |}.

(** * Properties *)

(** ** Arithmetic and straight-line facts *)

Lemma Int64_wrap_in_range z : Int64.in_range z -> Int64.wrap z = z.
Proof.
  unfold Int64.in_range, Int64.wrap, Int64.min, Int64.max. intros H.
  rewrite Z.mod_small by lia. lia.
Qed.

Lemma Int64_wrap_max_succ : Int64.wrap (Int64.max + 1) = Int64.min.
Proof. reflexivity. Qed.

Lemma kernel_eta k :
  mk_kernel (ticks k) (loops_per_tick k) (sleep_list k) (intr_level k)
            (threads k) (calls k) = k.
Proof. by destruct k. Qed.

Lemma timer_ticks_spec k : timer_ticks k = (ticks k, k).
Proof.
  unfold timer_ticks, intr_disable, intr_set_level, with_intr_level. simpl.
  by rewrite kernel_eta.
Qed.

(** The two ways out of [timer_sleep] when interrupts are on. *)
Lemma timer_sleep_unfold d k :
  intr_get_level k = INTR_ON ->
  timer_sleep d k =
    if d <=? 0 then Ok k
    else Ok (k_thread_block
               (list_push_back (sleep_entry d k) (with_intr_level INTR_OFF k))).
Proof.
  intros Hon. unfold timer_sleep. rewrite timer_ticks_spec.
  destruct (decide _) as [_|]; [|done]. by destruct (d <=? 0).
Qed.

Lemma timer_sleep_panic d k :
  intr_get_level k ≠ INTR_ON -> timer_sleep d k = Panic.
Proof.
  intros Hoff. unfold timer_sleep. rewrite timer_ticks_spec.
  by destruct (decide _).
Qed.

(** ** The scheduler leaves alone what belongs to [timer.c] *)

Lemma new_calls_app k k' l : calls k' = calls k ++ l -> new_calls k k' = l.
Proof. unfold new_calls. intros ->. by rewrite drop_app_length. Qed.

Lemma all_threads_enqueue t sc : all_threads (enqueue t sc) = all_threads sc.
Proof.
  unfold enqueue. destruct (thread_mlfqs sc); [|done].
  destruct (all_threads sc !! t); [|done]. by destruct (_ <? 0).
Qed.

Lemma thread_mlfqs_enqueue t sc : thread_mlfqs (enqueue t sc) = thread_mlfqs sc.
Proof.
  unfold enqueue. destruct (thread_mlfqs sc) eqn:E; [|done].
  destruct (all_threads sc !! t); [|done]. by destruct (_ <? 0).
Qed.

Lemma all_threads_next sc t sc' :
  next_thread_to_run sc = (t, sc') -> all_threads sc' = all_threads sc.
Proof.
  unfold next_thread_to_run. intros H.
  destruct (thread_mlfqs sc).
  - destruct (scan_queues _ _) as [[? ?]|]; by simplify_eq.
  - destruct (ready_list sc); by simplify_eq.
Qed.

Lemma thread_mlfqs_next sc t sc' :
  next_thread_to_run sc = (t, sc') -> thread_mlfqs sc' = thread_mlfqs sc.
Proof.
  unfold next_thread_to_run. intros H.
  destruct (thread_mlfqs sc) eqn:E.
  - destruct (scan_queues _ _) as [[? ?]|]; by simplify_eq.
  - destruct (ready_list sc); by simplify_eq.
Qed.

Lemma idle_thread_next sc t sc' :
  next_thread_to_run sc = (t, sc') -> idle_thread sc' = idle_thread sc.
Proof.
  unfold next_thread_to_run. intros H.
  destruct (thread_mlfqs sc).
  - destruct (scan_queues _ _) as [[? ?]|]; by simplify_eq.
  - destruct (ready_list sc); by simplify_eq.
Qed.

(** ** The wake-up loop *)

Lemma ticks_wake st rest k : ticks (wake st rest k) = ticks k.
Proof. unfold wake. by destruct (thread_mlfqs _). Qed.

Lemma sleep_list_wake st rest k : sleep_list (wake st rest k) = rest.
Proof. unfold wake. by destruct (thread_mlfqs _). Qed.

Lemma calls_wake st rest k :
  calls (wake st rest k) = calls k ++ [CallThreadUnblock (st_thread st)].
Proof. unfold wake. by destruct (thread_mlfqs _). Qed.

Lemma thread_mlfqs_restore st k :
  thread_mlfqs (threads (restore st k)) = thread_mlfqs (threads k).
Proof.
  unfold restore. by destruct (saved_mlfq_priority st), (saved_ticks_at_priority st).
Qed.

Lemma thread_mlfqs_wake st rest k :
  thread_mlfqs (threads (wake st rest k)) = thread_mlfqs (threads k).
Proof.
  unfold wake, k_thread_unblock, thread_unblock. simpl.
  rewrite thread_mlfqs_enqueue.
  destruct (thread_mlfqs (threads k)) eqn:E; [|done].
  transitivity (thread_mlfqs (threads (restore st k))); [done|].
  by rewrite thread_mlfqs_restore.
Qed.

Lemma wake_loop_unfold before st after k :
  wake_loop before (st :: after) k =
    if decide (expired (ticks k) st)
    then wake_loop before after (wake st (before ++ after) k)
    else wake_loop (before ++ [st]) after k.
Proof.
  simpl. unfold expired.
  destruct (Z.leb_spec (wake_tick st) (ticks k)), (decide _); done || lia.
Qed.

Lemma ticks_wake_loop before after k :
  ticks (wake_loop before after k) = ticks k.
Proof.
  revert before k. induction after as [|st after IH]; intros before k; [done|].
  rewrite wake_loop_unfold. destruct (decide _); rewrite IH; [apply ticks_wake|done].
Qed.

Lemma thread_mlfqs_wake_loop before after k :
  thread_mlfqs (threads (wake_loop before after k)) = thread_mlfqs (threads k).
Proof.
  revert before k. induction after as [|st after IH]; intros before k; [done|].
  rewrite wake_loop_unfold.
  destruct (decide _); rewrite IH; [apply thread_mlfqs_wake|done].
Qed.

(** The loop keeps exactly the entries that are not due, in their order. *)
Lemma sleep_list_wake_loop before after k :
  sleep_list k = before ++ after ->
  sleep_list (wake_loop before after k) = before ++ pending (ticks k) after.
Proof.
  revert before k. induction after as [|st after IH]; intros before k Hk.
  { simpl. by rewrite Hk. }
  rewrite wake_loop_unfold. unfold pending. rewrite filter_cons.
  destruct (decide (expired _ _)) as [Hdue|Hnot].
  - rewrite decide_False by tauto.
    rewrite IH, ticks_wake; [done|apply sleep_list_wake].
  - rewrite decide_True by done.
    rewrite IH; [by rewrite <- (assoc_L (++))|by rewrite <- (assoc_L (++))].
Qed.

(** The loop unblocks exactly the entries that are due, in their order. *)
Lemma calls_wake_loop before after k :
  calls (wake_loop before after k) =
    calls k ++ (CallThreadUnblock ∘ st_thread <$> due (ticks k) after).
Proof.
  revert before k. induction after as [|st after IH]; intros before k.
  { simpl. by rewrite (right_id_L [] (++)). }
  rewrite wake_loop_unfold. unfold due. rewrite filter_cons.
  destruct (decide (expired _ _)) as [Hdue|Hnot].
  - rewrite IH, ticks_wake, calls_wake, <- (assoc_L (++)). done.
  - by rewrite IH.
Qed.

Lemma ticks_timer_interrupt k :
  ticks (timer_interrupt k) = Int64.add (ticks k) 1.
Proof. unfold timer_interrupt. by rewrite ticks_wake_loop. Qed.

Lemma sleep_list_timer_interrupt k :
  sleep_list (timer_interrupt k) =
    pending (ticks (timer_interrupt k)) (sleep_list k).
Proof.
  rewrite ticks_timer_interrupt. unfold timer_interrupt.
  by rewrite sleep_list_wake_loop.
Qed.

Lemma calls_timer_interrupt k :
  calls (timer_interrupt k) =
    calls k ++ CallThreadTick ::
      (CallThreadUnblock ∘ st_thread <$> due (ticks (timer_interrupt k)) (sleep_list k)).
Proof.
  rewrite ticks_timer_interrupt. unfold timer_interrupt.
  rewrite calls_wake_loop. simpl. by rewrite <- (assoc_L (++)).
Qed.

Lemma thread_mlfqs_thread_tick sc :
  thread_mlfqs (thread_tick sc) = thread_mlfqs sc.
Proof.
  unfold thread_tick. destruct (thread_mlfqs sc) eqn:E; [|done].
  destruct (decide _), (_ <=? _); done.
Qed.

Lemma thread_mlfqs_timer_interrupt k :
  thread_mlfqs (threads (timer_interrupt k)) = thread_mlfqs (threads k).
Proof.
  unfold timer_interrupt. rewrite thread_mlfqs_wake_loop. simpl.
  apply thread_mlfqs_thread_tick.
Qed.

(** ** What the wake-up does to the threads *)

Lemma all_threads_wake st rest k :
  all_threads (threads (wake st rest k)) =
    alter (woken (thread_mlfqs (threads k)) st) (st_thread st)
          (all_threads (threads k)).
Proof.
  unfold wake, k_thread_unblock, thread_unblock. simpl.
  rewrite all_threads_enqueue. simpl.
  destruct (thread_mlfqs (threads k)); simpl; [|done].
  unfold woken.
  apply map_eq. intros t.
  destruct (decide (t = st_thread st)) as [->|Hne].
  - destruct (saved_mlfq_priority st), (saved_ticks_at_priority st); simpl;
      rewrite !lookup_alter_eq; by destruct (_ !! _).
  - destruct (saved_mlfq_priority st), (saved_ticks_at_priority st); simpl;
      by rewrite !lookup_alter_ne.
Qed.

Lemma lookup_wake st rest k t :
  all_threads (threads (wake st rest k)) !! t =
    if decide (t = st_thread st)
    then woken (thread_mlfqs (threads k)) st <$> all_threads (threads k) !! t
    else all_threads (threads k) !! t.
Proof.
  rewrite all_threads_wake. destruct (decide _) as [->|].
  - by rewrite lookup_alter_eq.
  - by rewrite lookup_alter_ne.
Qed.

(** A thread with no due entry is not touched by the loop. *)
Lemma lookup_wake_loop_other before after k t :
  t ∉ st_thread <$> due (ticks k) after ->
  all_threads (threads (wake_loop before after k)) !! t =
    all_threads (threads k) !! t.
Proof.
  revert before k. induction after as [|st after IH]; intros before k Ht; [done|].
  rewrite wake_loop_unfold. unfold due in Ht. rewrite filter_cons in Ht.
  destruct (decide (expired _ _)).
  - rewrite fmap_cons, not_elem_of_cons in Ht. destruct Ht as [Hne Ht].
    rewrite IH by (by rewrite ticks_wake).
    rewrite lookup_wake. by rewrite decide_False.
  - by rewrite IH.
Qed.

(** A thread with one entry, due, ends up with the state saved in it. *)
Lemma lookup_wake_loop_due before after k st :
  NoDup (st_thread <$> after) ->
  st ∈ after ->
  expired (ticks k) st ->
  all_threads (threads (wake_loop before after k)) !! st_thread st =
    woken (thread_mlfqs (threads k)) st <$> all_threads (threads k) !! st_thread st.
Proof.
  revert before k. induction after as [|st' after IH]; intros before k Hnd Hin Hdue.
  { by apply elem_of_nil in Hin. }
  rewrite fmap_cons, NoDup_cons in Hnd. destruct Hnd as [Hfresh Hnd].
  rewrite wake_loop_unfold. apply elem_of_cons in Hin as [<-|Hin].
  - rewrite decide_True by done.
    rewrite lookup_wake_loop_other.
    + rewrite lookup_wake. by rewrite decide_True.
    + intros Hin. apply Hfresh.
      apply list_elem_of_fmap in Hin as (st2 & -> & Hin).
      apply list_elem_of_fmap. exists st2. split; [done|].
      unfold due in Hin. by apply list_elem_of_filter in Hin as [_ ?].
  - assert (st_thread st ≠ st_thread st') as Hne.
    { intros Heq. apply Hfresh. rewrite <- Heq.
      apply list_elem_of_fmap. eauto. }
    destruct (decide _).
    + rewrite IH; [|done|done|by rewrite ticks_wake].
      rewrite thread_mlfqs_wake, lookup_wake. by rewrite decide_False.
    + by apply IH.
Qed.

(** ** Status changes leave the MLFQ fields alone *)

Lemma fields_alter_status s t' (m : gmap tid thread) t :
  mlfq_fields <$> alter (set_status s) t' m !! t = mlfq_fields <$> m !! t.
Proof.
  destruct (decide (t = t')) as [->|].
  - rewrite lookup_alter_eq. by destruct (m !! t').
  - by rewrite lookup_alter_ne.
Qed.

Lemma all_threads_schedule sc :
  all_threads (schedule sc) =
    alter (set_status THREAD_RUNNING) (current (schedule sc)) (all_threads sc).
Proof.
  unfold schedule. destruct (next_thread_to_run sc) as [t sc1] eqn:E. simpl.
  by rewrite (all_threads_next _ _ _ E).
Qed.

Lemma fields_schedule sc t :
  mlfq_fields <$> all_threads (schedule sc) !! t = mlfq_fields <$> all_threads sc !! t.
Proof. rewrite all_threads_schedule. apply fields_alter_status. Qed.

Lemma fields_thread_block sc t :
  mlfq_fields <$> all_threads (thread_block sc) !! t
  = mlfq_fields <$> all_threads sc !! t.
Proof.
  unfold thread_block. rewrite fields_schedule. apply fields_alter_status.
Qed.

Lemma fields_thread_unblock t' sc t :
  mlfq_fields <$> all_threads (thread_unblock t' sc) !! t
  = mlfq_fields <$> all_threads sc !! t.
Proof.
  unfold thread_unblock. rewrite all_threads_enqueue. apply fields_alter_status.
Qed.

Lemma fields_thread_yield sc t :
  mlfq_fields <$> all_threads (thread_yield sc) !! t
  = mlfq_fields <$> all_threads sc !! t.
Proof.
  unfold thread_yield. rewrite fields_schedule.
  destruct (decide _); [done|].
  rewrite all_threads_enqueue. apply fields_alter_status.
Qed.

(** ** [timer_sleep] *)

(** C4.  With a duration of zero or less, [timer_sleep] returns at once and
    leaves the whole state as it was: the caller is not blocked (no call of
    [thread_block] is logged), the sleep list gets no entry, and no field of
    any thread changes.  The one thing that comes before the test of the
    duration is the assertion that interrupts are on, which the function
    documents as its precondition; a call that breaks it panics. *)
Theorem timer_sleep_nonpositive_noop k d :
  d <= 0 ->
  timer_sleep d k =
    if decide (intr_get_level k = INTR_ON) then Ok k else Panic.
Proof.
  intros Hd. destruct (decide _) as [Hon|Hoff].
  - rewrite timer_sleep_unfold by done. by rewrite (proj2 (Z.leb_le d 0)).
  - by apply timer_sleep_panic.
Qed.

Lemma timer_sleep_nonpositive_noop_witness :
  -3 <= 0
  /\ timer_sleep (-3) (sample_kernel true) = Ok (sample_kernel true).
Proof.
  split; [lia|].
  apply (timer_sleep_nonpositive_noop (sample_kernel true) (-3)). lia.
Defined.

(** C10.  [timer_sleep] writes no MLFQ field of any thread, whatever the
    duration and the policy.  A call either returns with the state untouched,
    or it appends its entry to the sleep list with interrupts off and calls
    [thread_block]; either way [mlfq_priority] and [ticks_at_priority] of
    every thread, the tick counter, [loops_per_tick] and the policy flag are
    what they were, the caller's two fields having only been read for the
    entry.  The only other way out is the panic of the assertion, with
    interrupts off, before anything is written. *)
Theorem timer_sleep_writes_no_mlfq_field k d :
  match timer_sleep d k with
  | Ok k' =>
      (k' = k
       \/ k' = k_thread_block
                 (list_push_back (sleep_entry d k) (with_intr_level INTR_OFF k)))
      /\ (forall t, mlfq_state t k' = mlfq_state t k)
      /\ ticks k' = ticks k
      /\ loops_per_tick k' = loops_per_tick k
      /\ thread_mlfqs (threads k') = thread_mlfqs (threads k)
      /\ (sleep_list k' = sleep_list k
          \/ sleep_list k' = sleep_list k ++ [sleep_entry d k])
  | Panic => intr_get_level k <> INTR_ON
  end.
Proof.
  destruct (decide (intr_get_level k = INTR_ON)) as [Hon|Hoff];
    [|by rewrite timer_sleep_panic].
  rewrite timer_sleep_unfold by done.
  destruct (d <=? 0).
  - repeat split; auto.
  - split; [by right|]. split; [|repeat split; auto].
    + intros t. unfold mlfq_state. simpl. apply fields_thread_block.
    + simpl. unfold thread_block, schedule.
      destruct (next_thread_to_run _) as [n sc1] eqn:E. simpl.
      by rewrite (thread_mlfqs_next _ _ _ E).
Qed.

(** A sleep of 100 ticks in the sample state: thread 1 is filed and blocked,
    thread 2 runs, and thread 1 still has its level 0 and its 3 ticks. *)
Example timer_sleep_sample :
  exists k',
    timer_sleep 100 (sample_kernel true) = Ok k'
    /\ sleep_list k' = [mk_sleeping 1%nat 105 (Some 0) (Some 3)]
    /\ new_calls (sample_kernel true) k' = [CallThreadBlock 1%nat]
    /\ thread_state 1%nat k' = Some THREAD_BLOCKED
    /\ mlfq_state 1%nat k' = Some (0, 3)
    /\ current (threads k') = 2%nat.
Proof. eexists. by vm_compute. Qed.

(** ** [timer_interrupt] *)

(** C7, as amended.  With the tick counter below [INT64_MAX], an interrupt
    adds exactly one to it, so that it grows strictly, and calls
    [thread_tick] exactly once: the call is the first one the handler makes,
    and every later one is a [thread_unblock]. *)
Theorem timer_interrupt_counts_one_tick k :
  Int64.min <= ticks k < Int64.max ->
  let k' := timer_interrupt k in
  ticks k' = ticks k + 1
  /\ ticks k < ticks k'
  /\ exists unblocks,
       new_calls k k' = CallThreadTick :: unblocks
       /\ (CallThreadTick ∉ unblocks)
       /\ count_occ call_eq_dec (new_calls k k') CallThreadTick = 1%nat.
Proof.
  intros Hr k'. subst k'. rewrite ticks_timer_interrupt.
  unfold Int64.add. rewrite Int64_wrap_in_range
    by (unfold Int64.in_range, Int64.min, Int64.max in *; lia).
  split; [done|]. split; [lia|].
  eexists. rewrite (new_calls_app _ _ _ (calls_timer_interrupt k)).
  split; [done|].
  assert (forall l : list sleeping_thread,
            CallThreadTick ∉ (CallThreadUnblock ∘ st_thread <$> l)) as Hno.
  { intros l Hin. apply list_elem_of_fmap in Hin as (? & ? & _). done. }
  split; [apply Hno|].
  rewrite count_occ_cons_eq by done. f_equal.
  apply count_occ_not_In. rewrite <- list_elem_of_In. apply Hno.
Qed.

Lemma timer_interrupt_counts_one_tick_witness :
  let k := three_sleepers in
  Int64.min <= ticks k < Int64.max
  /\ ticks (timer_interrupt k) = ticks k + 1
  /\ ticks k < ticks (timer_interrupt k)
  /\ exists unblocks,
       new_calls k (timer_interrupt k) = CallThreadTick :: unblocks
       /\ (CallThreadTick ∉ unblocks)
       /\ count_occ call_eq_dec (new_calls k (timer_interrupt k)) CallThreadTick
          = 1%nat.
Proof.
  split; [by vm_compute|].
  apply (timer_interrupt_counts_one_tick three_sleepers). by vm_compute.
Defined.

(** C7, as stated, fails where the counter stands at [INT64_MAX]: the
    increment overflows [int64_t], and the counter falls to [INT64_MIN]. *)
Lemma tick_counter_overflows_at_max :
  let k := with_ticks Int64.max (sample_kernel true) in
  ticks (timer_interrupt k) <> ticks k + 1
  /\ ticks (timer_interrupt k) < ticks k.
Proof. by vm_compute. Qed.

(** C8.  One interrupt wakes every entry that is due at the new tick, not
    only the first: the sleep list keeps exactly the entries that are not
    due, and after the one call of [thread_tick] the handler calls
    [thread_unblock] once per due entry, in the order of the sleep list.
    That order is the order of registration: [timer_sleep] appends at the
    back, so the old list is a prefix of the new one. *)
Theorem timer_interrupt_wakes_all_due_in_order k :
  let k' := timer_interrupt k in
  sleep_list k' = pending (ticks k') (sleep_list k)
  /\ new_calls k k' =
       CallThreadTick ::
         (CallThreadUnblock ∘ st_thread <$> due (ticks k') (sleep_list k))
  /\ forall d,
       match timer_sleep d k with
       | Ok k1 => sleep_list k1 = sleep_list k
                  \/ sleep_list k1 = sleep_list k ++ [sleep_entry d k]
       | Panic => True
       end.
Proof.
  simpl. split; [apply sleep_list_timer_interrupt|].
  split; [apply new_calls_app, calls_timer_interrupt|].
  intros d. destruct (decide (intr_get_level k = INTR_ON)) as [Hon|Hoff].
  - rewrite timer_sleep_unfold by done. destruct (d <=? 0); [by left|by right].
  - by rewrite timer_sleep_panic.
Qed.

(** Three sleepers registered in the order 1, 2, 3, of which 1 and 3 are due:
    both are woken by the one interrupt, 1 before 3, and 2 sleeps on. *)
Example three_sleepers_tick :
  new_calls three_sleepers (timer_interrupt three_sleepers) =
    [CallThreadTick; CallThreadUnblock 1%nat; CallThreadUnblock 3%nat]
  /\ sleepers (timer_interrupt three_sleepers) = [2%nat]
  /\ mlfq_queues (threads (timer_interrupt three_sleepers)) !! 4%nat
     = Some [1%nat; 3%nat].
Proof. by vm_compute. Qed.

(** ** The real-time sleeps *)

Lemma Int64_mul_in_range a b :
  Int64.in_range (a * b) -> Int64.mul a b = a * b.
Proof. apply Int64_wrap_in_range. Qed.

Lemma Int64_div_pos a b : 0 < b -> Int64.div a b = Some (a ÷ b).
Proof.
  intros Hb. unfold Int64.div.
  destruct (Z.eqb_spec b 0); [lia|]. destruct (Z.eqb_spec b (-1)); [lia|].
  by rewrite andb_false_r.
Qed.

(** C9, as amended.  For [num >= 0] whose product with [TIMER_FREQ] fits
    [int64_t] and a positive [denom], [real_time_sleep] works with
    [num * TIMER_FREQ / denom] ticks, rounded down.  If that is positive, it
    is [timer_sleep] for that many ticks, which blocks the caller behind a
    new sleep entry.  Otherwise, past its assertion of interrupts on, it is
    [real_time_delay]; for a denominator that is a multiple of 1000, as the
    assertion there asks, that is one busy wait and nothing else: no call of
    [thread_block], no sleep entry. *)
Theorem real_time_sleep_rounds_down TIMER_FREQ num denom k :
  19 <= TIMER_FREQ <= 1000 ->
  0 <= num ->
  num * TIMER_FREQ <= Int64.max ->
  0 < denom ->
  let n := num * TIMER_FREQ / denom in
  (0 < n ->
     real_time_sleep TIMER_FREQ num denom k = timer_sleep n k
     /\ (intr_get_level k = INTR_ON ->
           timer_sleep n k =
             Ok (k_thread_block
                   (list_push_back (sleep_entry n k)
                                   (with_intr_level INTR_OFF k)))))
  /\ (n <= 0 ->
        real_time_sleep TIMER_FREQ num denom k
        = (if decide (intr_get_level k = INTR_ON)
           then real_time_delay TIMER_FREQ num denom k else Panic)
        /\ (Z.rem denom 1000 = 0 ->
              exists loops,
                real_time_delay TIMER_FREQ num denom k = Ok (busy_wait loops k))).
Proof.
  intros HF Hnum Hfit Hden n.
  assert (Int64.div (Int64.mul num TIMER_FREQ) denom = Some n) as Hn.
  { rewrite Int64_mul_in_range
      by (unfold Int64.in_range, Int64.min, Int64.max in *; nia).
    rewrite Int64_div_pos by done. f_equal.
    apply Z.quot_div_nonneg; nia. }
  unfold real_time_sleep. rewrite Hn. split.
  - intros Hpos. rewrite (proj2 (Z.ltb_lt 0 n)) by done. split.
    + destruct (decide _) as [|Hoff]; [done|]. by rewrite timer_sleep_panic.
    + intros Hon. rewrite timer_sleep_unfold by done.
      by rewrite (proj2 (Z.leb_gt n 0)).
  - intros Hle. rewrite (proj2 (Z.ltb_ge 0 n)) by done. split; [done|].
    intros Hrem. unfold real_time_delay.
    destruct (decide (Z.rem denom 1000 = 0)) as [_|]; [|done].
    assert (0 < denom ÷ 1000) as Hq.
    { pose proof (Z.quot_rem' denom 1000) as Heq. rewrite Hrem in Heq.
      apply Z.quot_str_pos. lia. }
    rewrite Int64_div_pos by done. eauto.
Qed.

Lemma real_time_sleep_rounds_down_witness :
  let k := sample_kernel true in
  19 <= 100 <= 1000
  /\ 0 <= 250
  /\ 250 * 100 <= Int64.max
  /\ 0 < 1000
  /\ 0 < 250 * 100 / 1000
  /\ real_time_sleep 100 250 1000 k = timer_sleep (250 * 100 / 1000) k
  /\ (exists k', timer_sleep (250 * 100 / 1000) k = Ok k'
                 /\ sleep_list k' = [sleep_entry 25 k]
                 /\ new_calls k k' = [CallThreadBlock 1%nat]).
Proof.
  intros k.
  assert (19 <= 100 <= 1000) as H1 by lia.
  assert (0 <= 250) as H2 by lia.
  assert (250 * 100 <= Int64.max) as H3 by (by vm_compute).
  assert (0 < 1000) as H4 by lia.
  assert (0 < 250 * 100 / 1000) as H5 by (by vm_compute).
  do 5 (split; [assumption|]).
  destruct (real_time_sleep_rounds_down 100 250 1000 k H1 H2 H3 H4) as [Hs _].
  destruct (Hs H5) as [Heq Hok]. split; [exact Heq|].
  eexists. split; [apply Hok; reflexivity|]. split; reflexivity.
Defined.

(** C9, as stated, fails where [num * TIMER_FREQ] overflows: with
    [TIMER_FREQ = 100], [timer_msleep (2^62)] asks for a positive number of
    ticks, but the product wraps to zero and the call busy-waits instead of
    blocking.  It also fails for a denominator that is no multiple of 1000:
    below one tick, [real_time_delay] does not busy-wait but trips its
    assertion. *)
Lemma real_time_sleep_overflow :
  let k := sample_kernel true in
  (0 < 2 ^ 62 * 100 / 1000
   /\ timer_msleep 100 (2 ^ 62) k = Ok (busy_wait 0 k)
   /\ timer_msleep 100 (2 ^ 62) k <> timer_sleep (2 ^ 62 * 100 / 1000) k)
  /\ (0 * 100 / 7 <= 0 /\ real_time_sleep 100 0 7 k = Panic).
Proof. by vm_compute. Qed.

(** A quarter of a second at 100 Hz is 25 ticks of sleep; 5 ms is less than
    a tick and is spent in a busy wait. *)
Example timer_msleep_250 :
  timer_msleep 100 250 (sample_kernel true) = timer_sleep 25 (sample_kernel true).
Proof. reflexivity. Qed.

Example timer_msleep_5 :
  timer_msleep 100 5 (sample_kernel true)
  = Ok (busy_wait (1024 * 5 ÷ 1000 * 100 ÷ 1) (sample_kernel true)).
Proof. reflexivity. Qed.

(** ** The ready queues *)

Lemma concat_alter_snoc (qs : list (list tid)) (i : nat) t :
  (i < length qs)%nat ->
  concat (alter (λ q, q ++ [t]) i qs) ≡ₚ t :: concat qs.
Proof.
  revert i. induction qs as [|q qs IH]; intros i Hi; simpl in *; [lia|].
  destruct i as [|i]; simpl.
  - rewrite <- (assoc_L (++)). simpl. by rewrite <- Permutation_middle.
  - etrans; [apply Permutation_app_head, IH; lia|].
    symmetry. apply Permutation_middle.
Qed.

Lemma concat_insert_tail (qs : list (list tid)) (i : nat) t q :
  qs !! i = Some (t :: q) ->
  concat qs ≡ₚ t :: concat (<[i := q]> qs).
Proof.
  revert i. induction qs as [|q' qs IH]; intros i Hi; [done|].
  destruct i as [|i]; simpl in *.
  - by simplify_eq.
  - etrans; [apply Permutation_app_head, (IH _ Hi)|].
    symmetry. apply Permutation_middle.
Qed.

Lemma scan_queues_Some n qs t qs' :
  scan_queues n qs = Some (t, qs') ->
  exists i q, qs !! i = Some (t :: q) /\ qs' = <[i := q]> qs.
Proof.
  induction n as [|n IH]; simpl; [done|].
  destruct (qs !! n) as [[|t' q]|] eqn:E; [done| |done].
  intros ?; simplify_eq. eauto.
Qed.

Lemma concat_replicate_nil (n : nat) : concat (replicate n (@nil tid)) = [].
Proof. induction n; simpl; done. Qed.

Lemma concat_boost (qs : list (list tid)) (n : nat) :
  length qs = S n ->
  concat (replicate n [] ++ [default [] (qs !! n) ++ concat (take n qs)])
  ≡ₚ concat qs.
Proof.
  intros Hlen. rewrite concat_app, concat_replicate_nil. simpl.
  rewrite (right_id_L [] (++)).
  rewrite <- (take_drop n qs) at 3. rewrite concat_app.
  destruct (qs !! n) as [q|] eqn:E.
  - rewrite (drop_S _ _ _ E), drop_ge by lia. simpl.
    rewrite (right_id_L [] (++)). apply Permutation_app_comm.
  - apply lookup_ge_None in E. lia.
Qed.

(** Where the queues stand after the scheduler's operations. *)
Lemma ready_enqueue t sc :
  length (mlfq_queues sc) = Z.to_nat MLFQ_LEVELS ->
  map_Forall (λ _ th, level_ok (mlfq_priority th)) (all_threads sc) ->
  is_Some (all_threads sc !! t) ->
  ready_threads (enqueue t sc) ≡ₚ t :: ready_threads sc.
Proof.
  intros Hlen Hprio [th Hth]. unfold enqueue, ready_threads.
  destruct (thread_mlfqs sc); simpl.
  - rewrite Hth. pose proof (Hprio _ _ Hth) as Hp. unfold level_ok in Hp. simpl in Hp.
    destruct (Z.ltb_spec (mlfq_priority th) 0); [lia|]. simpl.
    rewrite concat_alter_snoc; [done|]. rewrite Hlen. unfold MLFQ_LEVELS in *. lia.
  - rewrite (assoc_L (++)). by rewrite <- Permutation_cons_append.
Qed.

Lemma ready_next sc t sc' :
  next_thread_to_run sc = (t, sc') ->
  (ready_threads sc ≡ₚ t :: ready_threads sc'
   /\ length (mlfq_queues sc') = length (mlfq_queues sc))
  \/ (t = idle_thread sc /\ sc' = sc).
Proof.
  unfold next_thread_to_run, ready_threads. intros H.
  destruct (thread_mlfqs sc).
  - destruct (scan_queues _ _) as [[t' qs']|] eqn:E; simplify_eq; [|by right].
    apply scan_queues_Some in E as (i & q & Hi & ->). left. simpl.
    rewrite length_insert. split; [|done].
    by rewrite (concat_insert_tail _ _ _ _ Hi).
  - destruct (ready_list sc) as [|t' l]; simplify_eq; [by right|].
    left. simpl. split; [|done]. by rewrite <- Permutation_middle.
Qed.

Lemma ready_boost sc :
  length (mlfq_queues sc) = Z.to_nat MLFQ_LEVELS ->
  ready_threads (mlfq_boost_all sc) ≡ₚ ready_threads sc.
Proof.
  intros Hlen. unfold mlfq_boost_all, ready_threads, with_queues, with_threads.
  cbn [mlfq_queues ready_list].
  apply Permutation_app_tail, concat_boost. by rewrite Hlen.
Qed.

(** ** The scheduler keeps its invariant *)

Lemma status_is_Some (m m' : gmap tid thread) t :
  status <$> m' !! t = status <$> m !! t ->
  is_Some (m !! t) -> is_Some (m' !! t).
Proof.
  intros Heq Hm. apply (fmap_is_Some status). rewrite Heq.
  by apply fmap_is_Some.
Qed.

(** The invariant only looks at the statuses, the idle thread, the ready
    threads up to their order, the number of queues and the levels. *)
Lemma sched_pre_transfer zs sc sc' :
  (forall t, status <$> all_threads sc' !! t = status <$> all_threads sc !! t) ->
  idle_thread sc' = idle_thread sc ->
  ready_threads sc' ≡ₚ ready_threads sc ->
  length (mlfq_queues sc') = length (mlfq_queues sc) ->
  map_Forall (λ _ th, level_ok (mlfq_priority th)) (all_threads sc') ->
  sched_pre zs sc -> sched_pre zs sc'.
Proof.
  intros Hst Hidle Hready Hlen Hprio (Hnd & Hzs & Hrnd & Hir & Hdom & Hl & _).
  unfold sched_pre. rewrite Hidle, Hready, Hlen.
  split_and!; try done.
  - eapply Forall_impl; [exact Hzs|]. intros t (? & ? & ?).
    by rewrite Hst, Hready.
  - eapply Forall_impl; [exact Hdom|]. intros t ?.
    eapply status_is_Some; [apply Hst|done].
Qed.

Lemma sched_wf_transfer zs sc sc' :
  (forall t, status <$> all_threads sc' !! t = status <$> all_threads sc !! t) ->
  current sc' = current sc ->
  idle_thread sc' = idle_thread sc ->
  ready_threads sc' ≡ₚ ready_threads sc ->
  length (mlfq_queues sc') = length (mlfq_queues sc) ->
  map_Forall (λ _ th, level_ok (mlfq_priority th)) (all_threads sc') ->
  sched_wf zs sc -> sched_wf zs sc'.
Proof.
  intros Hst Hcur Hidle Hready Hlen Hprio (Hpre & Hc & Hcz & Hcr).
  unfold sched_wf. rewrite Hcur, Hready.
  split_and!; try done.
  - by eapply sched_pre_transfer.
  - eapply status_is_Some; [apply Hst|done].
Qed.

(** An update of one thread that keeps its status and stays on a level. *)
Lemma sched_wf_update f t zs sc :
  (forall th, status (f th) = status th) ->
  (forall th, level_ok (mlfq_priority th) -> level_ok (mlfq_priority (f th))) ->
  sched_wf zs sc -> sched_wf zs (update f t sc).
Proof.
  intros Hst Hlv Hwf. eapply sched_wf_transfer; try exact Hwf; try done.
  - intros t'. unfold update. simpl.
    destruct (decide (t' = t)) as [->|].
    + rewrite lookup_alter_eq. destruct (_ !! t); simpl; by rewrite ?Hst.
    + by rewrite lookup_alter_ne.
  - destruct Hwf as ((_ & _ & _ & _ & _ & _ & Hprio) & _).
    unfold update. simpl. intros t' th'.
    destruct (decide (t' = t)) as [->|].
    + rewrite lookup_alter_eq. destruct (_ !! t) as [th|] eqn:E; [|done].
      simpl. intros ?; simplify_eq. apply Hlv. by eapply Hprio.
    + rewrite lookup_alter_ne by done. apply Hprio.
Qed.

Lemma level_ok_account th :
  level_ok (mlfq_priority th) -> level_ok (mlfq_priority (account th)).
Proof.
  unfold level_ok, account, quantum, MLFQ_LEVELS. intros H.
  destruct (_ - _ + 1 <=? _); [|done].
  destruct (Z.ltb_spec 0 (mlfq_priority th)); simpl; lia.
Qed.

Lemma status_account th : status (account th) = status th.
Proof.
  unfold account.
  by destruct (quantum _ <=? _), (0 <? mlfq_priority th).
Qed.

Lemma sched_wf_boost zs sc : sched_wf zs sc -> sched_wf zs (mlfq_boost_all sc).
Proof.
  intros Hwf. pose proof Hwf as ((_ & _ & _ & _ & _ & Hlen & _) & _).
  eapply sched_wf_transfer; try exact Hwf; try done.
  - intros t. unfold mlfq_boost_all. simpl. rewrite lookup_fmap.
    by destruct (_ !! t).
  - by apply ready_boost.
  - unfold mlfq_boost_all. simpl. intros t th. rewrite lookup_fmap.
    destruct (_ !! t); [|done]. simpl. intros ?; simplify_eq.
    unfold level_ok, boosted, MLFQ_LEVELS. simpl. lia.
Qed.

Lemma sched_wf_with_boost b zs sc : sched_wf zs sc -> sched_wf zs (with_boost b sc).
Proof. done. Qed.

Lemma sched_wf_thread_tick zs sc : sched_wf zs sc -> sched_wf zs (thread_tick sc).
Proof.
  intros Hwf. unfold thread_tick. destruct (thread_mlfqs sc); [|done].
  assert (sched_wf zs (if decide (current sc = idle_thread sc) then sc
                       else update account (current sc) sc)) as Hwf1.
  { destruct (decide _); [done|].
    apply sched_wf_update; auto using status_account, level_ok_account. }
  destruct (_ <=? _).
  - by apply sched_wf_with_boost, sched_wf_boost.
  - by apply sched_wf_with_boost.
Qed.

Lemma status_alter_ne s (m : gmap tid thread) t t' :
  t ≠ t' -> status <$> alter (set_status s) t' m !! t = status <$> m !! t.
Proof. intros. by rewrite lookup_alter_ne. Qed.

Lemma status_alter_eq s (m : gmap tid thread) t :
  is_Some (m !! t) -> status <$> alter (set_status s) t m !! t = Some s.
Proof. intros [th Hth]. by rewrite lookup_alter_eq, Hth. Qed.

Lemma is_Some_alter (f : thread -> thread) (m : gmap tid thread) t t' :
  is_Some (alter f t' m !! t) <-> is_Some (m !! t).
Proof.
  destruct (decide (t = t')) as [->|].
  - rewrite lookup_alter_eq. apply fmap_is_Some.
  - by rewrite lookup_alter_ne.
Qed.

Lemma level_ok_alter_status s t (m : gmap tid thread) :
  map_Forall (λ _ th, level_ok (mlfq_priority th)) m ->
  map_Forall (λ _ th, level_ok (mlfq_priority th)) (alter (set_status s) t m).
Proof.
  intros Hm t' th'. destruct (decide (t' = t)) as [->|].
  - rewrite lookup_alter_eq. destruct (m !! t) as [th|] eqn:E; [|done].
    simpl. intros ?; simplify_eq. apply (Hm _ _ E).
  - rewrite lookup_alter_ne by done. apply Hm.
Qed.

(** The dispatcher establishes the invariant for the thread it picks. *)
Lemma sched_wf_schedule zs sc : sched_pre zs sc -> sched_wf zs (schedule sc).
Proof.
  intros (Hnd & Hzs & Hrnd & Hir & Hdom & Hlen & Hprio).
  unfold schedule. destruct (next_thread_to_run sc) as [n sc1] eqn:E.
  pose proof (all_threads_next _ _ _ E) as Hall.
  pose proof (idle_thread_next _ _ _ E) as Hidle.
  apply Forall_cons in Hdom as [Hdi Hdr].
  assert ((n ∉ zs) /\ is_Some (all_threads sc !! n) /\ (n ∉ ready_threads sc1)
          /\ NoDup (ready_threads sc1)
          /\ (forall x, x ∈ ready_threads sc1 -> x ∈ ready_threads sc)
          /\ length (mlfq_queues sc1) = length (mlfq_queues sc))
    as (Hnz & Hn & Hnr & Hrnd1 & Hsub & Hlen1).
  { destruct (ready_next _ _ _ E) as [[Hperm Hl]|[-> ->]].
    - rewrite Hperm in Hrnd. apply NoDup_cons in Hrnd as [? ?].
      assert (n ∈ ready_threads sc) as Hin by (rewrite Hperm; left).
      split_and!; try done.
      + intros Hz. rewrite Forall_forall in Hzs.
        by destruct (Hzs _ Hz) as (_ & _ & ?).
      + rewrite Forall_forall in Hdr. by apply Hdr.
      + intros x Hx. rewrite Hperm. by right.
    - split_and!; try done.
      intros Hz. rewrite Forall_forall in Hzs.
      by destruct (Hzs _ Hz) as (_ & ? & _). }
  unfold sched_wf, sched_pre, with_current, update, with_threads, ready_threads in *.
  cbn [all_threads current idle_thread mlfq_queues ready_list].
  rewrite Hall, Hidle, Hlen1.
  split_and!; try done.
  - eapply Forall_impl; [exact Hzs|]. intros t (Hst & ? & Hr).
    split_and!; [|done|naive_solver].
    rewrite status_alter_ne; [done|]. intros ->.
    destruct (ready_next _ _ _ E) as [[Hperm _]|[-> ->]]; [|done].
    apply Hr. unfold ready_threads. rewrite Hperm. left.
  - intros Hi. by apply Hir, Hsub.
  - apply Forall_cons. split; [by apply is_Some_alter|].
    rewrite Forall_forall in Hdr. apply Forall_forall. intros x Hx.
    apply is_Some_alter, Hdr, Hsub, Hx.
  - by apply level_ok_alter_status.
  - by apply is_Some_alter.
Qed.

Lemma idle_thread_enqueue t sc : idle_thread (enqueue t sc) = idle_thread sc.
Proof.
  unfold enqueue. destruct (thread_mlfqs sc); [|done].
  destruct (all_threads sc !! t); [|done]. by destruct (_ <? 0).
Qed.

Lemma current_enqueue t sc : current (enqueue t sc) = current sc.
Proof.
  unfold enqueue. destruct (thread_mlfqs sc); [|done].
  destruct (all_threads sc !! t); [|done]. by destruct (_ <? 0).
Qed.

Lemma length_queues_enqueue t sc :
  length (mlfq_queues (enqueue t sc)) = length (mlfq_queues sc).
Proof.
  unfold enqueue. destruct (thread_mlfqs sc); [|done].
  destruct (all_threads sc !! t); [|done]. destruct (_ <? 0); [done|].
  simpl. by rewrite length_alter.
Qed.

Lemma sched_wf_thread_block zs sc :
  sched_wf zs sc ->
  current sc ≠ idle_thread sc ->
  sched_wf (zs ++ [current sc]) (thread_block sc).
Proof.
  intros ((Hnd & Hzs & Hrnd & Hir & Hdom & Hlen & Hprio) & Hc & Hcz & Hcr) Hci.
  apply sched_wf_schedule.
  unfold sched_pre, update, with_threads, ready_threads in *.
  cbn [all_threads current idle_thread mlfq_queues ready_list].
  split_and!; try done.
  - apply NoDup_app. split_and!; [done| |apply NoDup_singleton].
    intros x Hx ->%list_elem_of_singleton. done.
  - apply Forall_app. split.
    + apply Forall_forall. intros t Ht.
      rewrite Forall_forall in Hzs. destruct (Hzs _ Ht) as (Hst & ? & ?).
      split_and!; [|done|done].
      rewrite status_alter_ne; [done|]. by intros ->.
    + apply Forall_singleton. split_and!; [|done|done].
      by apply status_alter_eq.
  - eapply Forall_impl; [exact Hdom|]. intros t ?. by apply is_Some_alter.
  - by apply level_ok_alter_status.
Qed.

Lemma sched_wf_thread_unblock zs1 t zs2 sc :
  sched_wf (zs1 ++ t :: zs2) sc ->
  sched_wf (zs1 ++ zs2) (thread_unblock t sc).
Proof.
  intros ((Hnd & Hzs & Hrnd & Hir & Hdom & Hlen & Hprio) & Hc & Hcz & Hcr).
  apply NoDup_app in Hnd as (Hnd1 & Hdisj & Hnd2).
  apply NoDup_cons in Hnd2 as [Ht2 Hnd2].
  apply Forall_app in Hzs as [Hzs1 Hzs2].
  apply Forall_cons in Hzs2 as [(Hts & Hti & Htr) Hzs2].
  assert (is_Some (all_threads sc !! t)) as Htd.
  { apply (fmap_is_Some status). by rewrite Hts. }
  assert (t ∉ zs1) as Ht1.
  { intros Hin. apply (Hdisj _ Hin). left. }
  assert (t ≠ current sc) as Htc.
  { intros ->. apply Hcz. apply elem_of_app. right. left. }
  assert (ready_threads (thread_unblock t sc) ≡ₚ t :: ready_threads sc) as Hready.
  { unfold thread_unblock. rewrite ready_enqueue; [done|done| |].
    - by apply level_ok_alter_status.
    - by apply is_Some_alter. }
  assert (forall x, x ≠ t ->
            status <$> all_threads (thread_unblock t sc) !! x
            = status <$> all_threads sc !! x) as Hother.
  { intros x Hx. unfold thread_unblock. rewrite all_threads_enqueue.
    by apply status_alter_ne. }
  assert (forall x, is_Some (all_threads sc !! x) ->
            is_Some (all_threads (thread_unblock t sc) !! x)) as Hsome.
  { intros x Hx. unfold thread_unblock. rewrite all_threads_enqueue.
    by apply is_Some_alter. }
  assert (idle_thread (thread_unblock t sc) = idle_thread sc) as Hidle.
  { unfold thread_unblock. by rewrite idle_thread_enqueue. }
  assert (current (thread_unblock t sc) = current sc) as Hcur.
  { unfold thread_unblock. by rewrite current_enqueue. }
  assert (length (mlfq_queues (thread_unblock t sc)) = length (mlfq_queues sc))
    as Hlen'.
  { unfold thread_unblock. by rewrite length_queues_enqueue. }
  unfold sched_wf, sched_pre. rewrite Hidle, Hcur, Hready, Hlen'.
  split_and!; try done.
  - apply NoDup_app. split_and!; [done| |done].
    intros x Hx1 Hx2. apply (Hdisj _ Hx1). by right.
  - assert (forall x, x ∈ zs1 ++ zs2 -> x ≠ t) as Hne.
    { intros x [?|?]%elem_of_app ->; done. }
    apply Forall_forall. intros x Hx.
    assert ((status <$> all_threads sc !! x) = Some THREAD_BLOCKED
            /\ x ≠ idle_thread sc /\ (x ∉ ready_threads sc)) as (? & ? & ?).
    { apply elem_of_app in Hx as [Hx|Hx].
      - rewrite Forall_forall in Hzs1. by apply Hzs1.
      - rewrite Forall_forall in Hzs2. by apply Hzs2. }
    split_and!; [|done|].
    + rewrite Hother; [done|by apply Hne].
    + rewrite Hready. apply not_elem_of_cons. split; [by apply Hne|done].
  - by apply NoDup_cons.
  - apply not_elem_of_cons. split; [done|done].
  - apply Forall_cons in Hdom as [Hdi Hdr].
    rewrite !Forall_cons. split_and!; [by apply Hsome|by apply Hsome|].
    eapply Forall_impl; [exact Hdr|]. intros x ?. by apply Hsome.
  - unfold thread_unblock. rewrite all_threads_enqueue.
    by apply level_ok_alter_status.
  - by apply Hsome.
  - intros [?|?]%elem_of_app; apply Hcz, elem_of_app; [by left|right; by right].
  - apply not_elem_of_cons. split; [done|done].
Qed.

Lemma sched_wf_thread_yield zs sc :
  sched_wf zs sc -> sched_wf zs (thread_yield sc).
Proof.
  intros ((Hnd & Hzs & Hrnd & Hir & Hdom & Hlen & Hprio) & Hc & Hcz & Hcr).
  unfold thread_yield. apply sched_wf_schedule.
  destruct (decide _) as [Hidle|Hidle]; [done|].
  set (c := current sc) in *.
  set (sc1 := update (set_status THREAD_READY) c sc).
  assert (ready_threads (enqueue c sc1) ≡ₚ c :: ready_threads sc) as Hready.
  { rewrite ready_enqueue; [done|done| |].
    - by apply level_ok_alter_status.
    - by apply is_Some_alter. }
  assert (idle_thread (enqueue c sc1) = idle_thread sc
          /\ length (mlfq_queues (enqueue c sc1)) = length (mlfq_queues sc))
    as [Hi Hl].
  { by rewrite idle_thread_enqueue, length_queues_enqueue. }
  unfold sched_pre. rewrite Hi, Hl, Hready, all_threads_enqueue.
  subst sc1. unfold update, with_threads. cbn [all_threads].
  split_and!; try done.
  - apply Forall_forall. intros x Hx.
    rewrite Forall_forall in Hzs. destruct (Hzs _ Hx) as (? & ? & ?).
    assert (x ≠ c) by (by intros ->).
    split_and!; [|done|].
    + by rewrite status_alter_ne.
    + rewrite Hready. by apply not_elem_of_cons.
  - by apply NoDup_cons.
  - apply not_elem_of_cons. split; [by intros ?|done].
  - apply Forall_cons in Hdom as [Hdi Hdr].
    rewrite !Forall_cons. split_and!; [by apply is_Some_alter..|].
    eapply Forall_impl; [exact Hdr|]. intros x ?. by apply is_Some_alter.
  - by apply level_ok_alter_status.
Qed.

(** ** [timer.c] keeps the states well formed *)

Lemma sched_wf_restore zs st k :
  snapshot_ok st ->
  sched_wf zs (threads k) -> sched_wf zs (threads (restore st k)).
Proof.
  intros Hok Hwf. unfold restore, snapshot_ok in *. simpl.
  destruct (saved_mlfq_priority st) as [p|], (saved_ticks_at_priority st) as [n|];
    repeat apply sched_wf_update; done.
Qed.

Lemma threads_wake st rest k :
  threads (wake st rest k) =
    thread_unblock (st_thread st)
      (threads (if thread_mlfqs (threads k) then restore st k else k)).
Proof. unfold wake. by destruct (thread_mlfqs _). Qed.

Lemma wf_wake before st after k :
  sleep_list k = before ++ st :: after ->
  wf k -> wf (wake st (before ++ after) k).
Proof.
  unfold wf, sleepers. intros Hk [Hsc Hsn].
  rewrite sleep_list_wake, threads_wake. rewrite Hk in Hsc, Hsn.
  rewrite fmap_app, fmap_cons in Hsc.
  apply Forall_app in Hsn as [Hsn1 Hsn2].
  apply Forall_cons in Hsn2 as [Hst Hsn2].
  split; [|by apply Forall_app].
  rewrite fmap_app. apply sched_wf_thread_unblock.
  destruct (thread_mlfqs _); [by apply sched_wf_restore|done].
Qed.

Lemma wf_wake_loop before after k :
  sleep_list k = before ++ after ->
  wf k -> wf (wake_loop before after k).
Proof.
  revert before k. induction after as [|st after IH]; intros before k Hk Hwf; [done|].
  rewrite wake_loop_unfold. destruct (decide _).
  - apply IH; [apply sleep_list_wake|by apply wf_wake].
  - apply IH; [by rewrite <- (assoc_L (++))|done].
Qed.

Lemma wf_timer_interrupt k : wf k -> wf (timer_interrupt k).
Proof.
  intros [Hsc Hsn]. unfold timer_interrupt. apply wf_wake_loop; [done|].
  split; [|done]. by apply sched_wf_thread_tick.
Qed.

Lemma snapshot_ok_sleep_entry d k :
  map_Forall (λ _ th, level_ok (mlfq_priority th)) (all_threads (threads k)) ->
  snapshot_ok (sleep_entry d k).
Proof.
  intros Hprio. unfold snapshot_ok, sleep_entry, thread_field. simpl.
  destruct (thread_mlfqs _); [|done].
  destruct (_ !! _) as [th|] eqn:E; [|done]. simpl. by eapply Hprio.
Qed.

Lemma wf_timer_sleep d k k' :
  current (threads k) ≠ idle_thread (threads k) ->
  timer_sleep d k = Ok k' ->
  wf k -> wf k'.
Proof.
  intros Hidle Hk' Hwf.
  destruct (decide (intr_get_level k = INTR_ON)) as [Hon|Hoff];
    [|by rewrite timer_sleep_panic in Hk'].
  rewrite timer_sleep_unfold in Hk' by done.
  destruct (d <=? 0); simplify_eq; [done|].
  destruct Hwf as [Hsc Hsn]. unfold wf, sleepers. simpl.
  split.
  - rewrite fmap_app. by apply sched_wf_thread_block.
  - apply Forall_app. split; [done|]. apply Forall_singleton.
    apply snapshot_ok_sleep_entry. by destruct Hsc as ((_ & _ & _ & _ & _ & _ & ?) & _).
Qed.

Lemma wf_dispatched k : wf k -> wf (dispatched k).
Proof. done. Qed.

Lemma wf_step k k' : step k k' -> wf k -> wf k'.
Proof.
  intros Hstep Hwf. destruct Hstep as [k|k d k' Hidle Hk'|k].
  - by apply wf_timer_interrupt.
  - by apply wf_dispatched, (wf_timer_sleep d k).
  - destruct Hwf as [Hsc Hsn]. split; [|done].
    by apply sched_wf_thread_yield.
Qed.

Lemma wf_steps k k' : rtc step k k' -> wf k -> wf k'.
Proof. induction 1; eauto using wf_step. Qed.

Lemma steps_ticks n k : rtc step k (Nat.iter n timer_interrupt k).
Proof.
  induction n as [|n IH]; simpl; [done|].
  eapply rtc_r; [exact IH|constructor].
Qed.


(** The sample states are well formed. *)

Lemma wf_sample_kernel mlfqs : wf (sample_kernel mlfqs).
Proof.
  destruct mlfqs; unfold wf, sched_wf, sched_pre; split_and!;
    compute_done.
Qed.

Lemma wf_lone_sleeper : wf lone_sleeper.
Proof. unfold wf, sched_wf, sched_pre; split_and!; compute_done. Qed.

Lemma wf_three_sleepers : wf three_sleepers.
Proof.
  unfold wf, sched_wf, sched_pre; split_and!; compute_done.
Qed.

(** ** Sleepers across an interrupt *)

Lemma NoDup_fmap_eq {A B} (f : A -> B) (l : list A) x y :
  NoDup (f <$> l) -> x ∈ l -> y ∈ l -> f x = f y -> x = y.
Proof.
  induction l as [|a l IH]; intros Hnd Hx Hy Hf.
  { by apply elem_of_nil in Hx. }
  rewrite fmap_cons, NoDup_cons in Hnd. destruct Hnd as [Ha Hnd].
  apply elem_of_cons in Hx as [->|Hx], Hy as [->|Hy]; [done| | |by apply IH].
  - destruct Ha. rewrite Hf. by apply list_elem_of_fmap_2.
  - destruct Ha. rewrite <- Hf. by apply list_elem_of_fmap_2.
Qed.

(** A sleeper whose entry is not due has no due entry at all. *)
Lemma not_due_thread now l st :
  NoDup (st_thread <$> l) -> st ∈ l -> ¬ expired now st ->
  st_thread st ∉ st_thread <$> due now l.
Proof.
  intros Hnd Hin Hnot Hdue.
  apply list_elem_of_fmap in Hdue as (st' & Heq & Hin').
  apply list_elem_of_filter in Hin' as [Hexp Hin'].
  assert (st = st') as -> by by eapply (NoDup_fmap_eq st_thread).
  done.
Qed.

Lemma status_thread_tick sc t :
  status <$> all_threads (thread_tick sc) !! t = status <$> all_threads sc !! t.
Proof.
  unfold thread_tick. destruct (thread_mlfqs sc); [|done].
  set (sc1 := if decide (current sc = idle_thread sc) then sc
              else update account (current sc) sc).
  assert (status <$> all_threads sc1 !! t = status <$> all_threads sc !! t) as <-.
  { subst sc1. destruct (decide _); [done|]. unfold update. simpl.
    destruct (decide (t = current sc)) as [->|].
    - rewrite lookup_alter_eq. destruct (_ !! current sc); [|done].
      simpl. by rewrite status_account.
    - by rewrite lookup_alter_ne. }
  destruct (_ <=? _); [|done].
  unfold mlfq_boost_all. simpl. rewrite lookup_fmap. by destruct (_ !! t).
Qed.

(** The state of a thread after an interrupt: that of [thread_tick], unless
    the thread had a due entry, the state saved in which then went back in. *)
Lemma lookup_timer_interrupt_due k st :
  NoDup (sleepers k) -> st ∈ sleep_list k ->
  expired (ticks (timer_interrupt k)) st ->
  all_threads (threads (timer_interrupt k)) !! st_thread st =
    woken (thread_mlfqs (threads k)) st
      <$> all_threads (thread_tick (threads k)) !! st_thread st.
Proof.
  intros Hnd Hin Hdue. rewrite ticks_timer_interrupt in Hdue.
  unfold timer_interrupt. rewrite lookup_wake_loop_due; try done.
  simpl. by rewrite thread_mlfqs_thread_tick.
Qed.

Lemma lookup_timer_interrupt_pending k st :
  NoDup (sleepers k) -> st ∈ sleep_list k ->
  ¬ expired (ticks (timer_interrupt k)) st ->
  all_threads (threads (timer_interrupt k)) !! st_thread st =
    all_threads (thread_tick (threads k)) !! st_thread st.
Proof.
  intros Hnd Hin Hnot. rewrite ticks_timer_interrupt in Hnot.
  unfold timer_interrupt. rewrite lookup_wake_loop_other; [done|].
  by apply not_due_thread.
Qed.

Lemma ready_update f t sc : ready_threads (update f t sc) = ready_threads sc.
Proof. done. Qed.

(** What is ready stays ready through the loop, and every due sleeper joins. *)
Lemma ready_wake st rest k :
  wf k -> st ∈ sleep_list k ->
  ready_threads (threads (wake st rest k))
  ≡ₚ st_thread st :: ready_threads (threads k).
Proof.
  intros [Hsc Hsn] Hin. rewrite threads_wake. unfold thread_unblock.
  assert (snapshot_ok st) as Hok by (rewrite Forall_forall in Hsn; by apply Hsn).
  assert (sched_wf (sleepers k)
            (threads (if thread_mlfqs (threads k) then restore st k else k)))
    as ((_ & Hzs & _ & _ & _ & Hlen & Hprio) & _).
  { destruct (thread_mlfqs _); [by apply sched_wf_restore|done]. }
  assert (ready_threads
            (threads (if thread_mlfqs (threads k) then restore st k else k))
          = ready_threads (threads k)) as Hr.
  { destruct (thread_mlfqs _); [|done]. unfold restore.
    by destruct (saved_mlfq_priority st), (saved_ticks_at_priority st). }
  rewrite ready_enqueue; [|done|by apply level_ok_alter_status|].
  { by rewrite ready_update, Hr. }
  apply is_Some_alter. rewrite Forall_forall in Hzs.
  destruct (Hzs (st_thread st)) as (Hst & _).
  { unfold sleepers. by apply list_elem_of_fmap_2. }
  apply (fmap_is_Some status). by rewrite Hst.
Qed.

Lemma ready_wake_loop before after k x :
  sleep_list k = before ++ after -> wf k ->
  x ∈ ready_threads (threads k) \/ x ∈ st_thread <$> due (ticks k) after ->
  x ∈ ready_threads (threads (wake_loop before after k)).
Proof.
  revert before k. induction after as [|st after IH]; intros before k Hk Hwf Hx.
  { destruct Hx as [?|Hx]; [done|]. by apply elem_of_nil in Hx. }
  rewrite wake_loop_unfold. unfold due in Hx. rewrite filter_cons in Hx.
  destruct (decide _).
  - apply IH; [apply sleep_list_wake|by apply wf_wake|].
    rewrite ticks_wake, ready_wake;
      [|done|rewrite Hk; apply elem_of_app; right; left].
    rewrite fmap_cons in Hx. destruct Hx as [Hx|Hx]; [left; by right|].
    apply elem_of_cons in Hx as [->|Hx]; [left; left|by right].
  - apply IH; [by rewrite <- (assoc_L (++))|done|done].
Qed.

Lemma status_woken mlfqs st th : status (woken mlfqs st th) = THREAD_READY.
Proof. done. Qed.

Lemma fields_woken_legacy st th : mlfq_fields (woken false st th) = mlfq_fields th.
Proof. done. Qed.

Lemma fields_woken_mlfq st th p n :
  saved_mlfq_priority st = Some p -> saved_ticks_at_priority st = Some n ->
  mlfq_fields (woken true st th) = (p, n).
Proof. unfold woken. by intros -> ->. Qed.

(** A sleeper is a thread of the system, and blocked. *)
Lemma sleeper_blocked k st :
  wf k -> st ∈ sleep_list k -> thread_state (st_thread st) k = Some THREAD_BLOCKED.
Proof.
  intros [((_ & Hzs & _) & _) _] Hin. rewrite Forall_forall in Hzs.
  destruct (Hzs (st_thread st)) as (? & _); [|done].
  unfold sleepers. by apply list_elem_of_fmap_2.
Qed.

Lemma wf_NoDup_sleepers k : wf k -> NoDup (sleepers k).
Proof. by intros [((? & _) & _) _]. Qed.

(** A due sleeper leaves the interrupt unblocked, ready and in a ready queue,
    its entry gone. *)
Lemma due_sleeper_wakes k st :
  wf k -> st ∈ sleep_list k ->
  expired (ticks (timer_interrupt k)) st ->
  (st ∉ sleep_list (timer_interrupt k))
  /\ (CallThreadUnblock (st_thread st) ∈ new_calls k (timer_interrupt k))
  /\ thread_state (st_thread st) (timer_interrupt k) = Some THREAD_READY
  /\ (st_thread st ∈ ready_threads (threads (timer_interrupt k))).
Proof.
  intros Hwf Hin Hdue. split_and!.
  - rewrite sleep_list_timer_interrupt. unfold pending.
    rewrite list_elem_of_filter. tauto.
  - rewrite (new_calls_app _ _ _ (calls_timer_interrupt k)).
    right. apply (list_elem_of_fmap_2 (CallThreadUnblock ∘ st_thread)).
    unfold due. by apply list_elem_of_filter.
  - unfold thread_state.
    rewrite lookup_timer_interrupt_due by auto using wf_NoDup_sleepers.
    pose proof (sleeper_blocked _ _ Hwf Hin) as Hb. unfold thread_state in Hb.
    rewrite <- status_thread_tick in Hb.
    destruct (all_threads (thread_tick (threads k)) !! st_thread st); done.
  - rewrite ticks_timer_interrupt in Hdue.
    unfold timer_interrupt. apply ready_wake_loop; [done| |].
    + destruct Hwf as [Hsc Hsn]. split; [|done]. by apply sched_wf_thread_tick.
    + right. apply list_elem_of_fmap_2. unfold due. by apply list_elem_of_filter.
Qed.

(** A sleeper that is not due sleeps on: entry kept, no unblock, blocked. *)
Lemma pending_sleeper_sleeps_on k st :
  wf k -> st ∈ sleep_list k ->
  ticks (timer_interrupt k) < wake_tick st ->
  (st ∈ sleep_list (timer_interrupt k))
  /\ (CallThreadUnblock (st_thread st) ∉ new_calls k (timer_interrupt k))
  /\ thread_state (st_thread st) (timer_interrupt k) = Some THREAD_BLOCKED.
Proof.
  intros Hwf Hin Hlt.
  assert (¬ expired (ticks (timer_interrupt k)) st) as Hnot
    by (unfold expired; lia).
  assert (st ∈ sleep_list (timer_interrupt k)) as Hin'.
  { rewrite sleep_list_timer_interrupt. unfold pending.
    by apply list_elem_of_filter. }
  split_and!; [done| |].
  - rewrite (new_calls_app _ _ _ (calls_timer_interrupt k)).
    apply not_elem_of_cons. split; [done|].
    intros Hc. apply list_elem_of_fmap in Hc as (st' & Heq & Hc).
    simpl in Heq. simplify_eq.
    eapply (not_due_thread _ _ st); eauto using wf_NoDup_sleepers.
    rewrite Heq. by apply list_elem_of_fmap_2.
  - apply sleeper_blocked; [by apply wf_timer_interrupt|done].
Qed.

(** The state saved in a due entry is what the thread has after the
    interrupt, whatever the scheduler did to the thread in between. *)
Lemma wake_restores_snapshot k st p n :
  wf k -> thread_mlfqs (threads k) = true ->
  st ∈ sleep_list k ->
  expired (ticks (timer_interrupt k)) st ->
  saved_mlfq_priority st = Some p -> saved_ticks_at_priority st = Some n ->
  mlfq_state (st_thread st) (timer_interrupt k) = Some (p, n).
Proof.
  intros Hwf Hm Hin Hdue Hp Hn. unfold mlfq_state.
  rewrite lookup_timer_interrupt_due by auto using wf_NoDup_sleepers.
  pose proof (sleeper_blocked _ _ Hwf Hin) as Hb. unfold thread_state in Hb.
  rewrite <- status_thread_tick in Hb. rewrite Hm.
  destruct (all_threads (thread_tick (threads k)) !! st_thread st); [|done].
  simpl. f_equal. by apply fields_woken_mlfq.
Qed.

(** ** Registration and wake-up *)

Lemma sleep_entry_deadline d k :
  0 < d -> Int64.min <= ticks k -> ticks k + d <= Int64.max ->
  wake_tick (sleep_entry d k) = ticks k + d.
Proof.
  intros. apply Int64_wrap_in_range. unfold Int64.in_range. lia.
Qed.

Lemma timer_sleep_positive d k :
  intr_get_level k = INTR_ON -> 0 < d ->
  timer_sleep d k =
    Ok (k_thread_block
          (list_push_back (sleep_entry d k) (with_intr_level INTR_OFF k))).
Proof.
  intros Hon Hd. rewrite timer_sleep_unfold by done.
  by rewrite (proj2 (Z.leb_gt d 0)).
Qed.

(** C3, as amended.  A call of [timer_sleep] with a positive duration whose
    sum with the tick count fits [int64_t] builds an entry for the caller
    with [wake_tick = ticks + duration], and that entry is what the call
    appends to the sleep list (unless the assertion of interrupts on stops
    it).  And in a well-formed state an interrupt wakes a sleeper exactly
    when the new tick count has reached the [wake_tick] of its entry: in that
    case the entry leaves the sleep list, [thread_unblock] is called on the
    thread, and the thread is ready and in the ready structure; otherwise the
    entry stays, the thread is not unblocked and remains blocked. *)
Theorem sleep_deadline_and_wake k :
  wf k ->
  (forall d,
     0 < d -> Int64.min <= ticks k -> ticks k + d <= Int64.max ->
     st_thread (sleep_entry d k) = current (threads k)
     /\ wake_tick (sleep_entry d k) = ticks k + d
     /\ match timer_sleep d k with
        | Ok k' => sleep_list k' = sleep_list k ++ [sleep_entry d k]
        | Panic => intr_get_level k <> INTR_ON
        end)
  /\ (forall st,
        st ∈ sleep_list k ->
        let k' := timer_interrupt k in
        let t := st_thread st in
        (wake_tick st <= ticks k' ->
           (st ∉ sleep_list k')
           /\ (CallThreadUnblock t ∈ new_calls k k')
           /\ thread_state t k' = Some THREAD_READY
           /\ (t ∈ ready_threads (threads k')))
        /\ (ticks k' < wake_tick st ->
              (st ∈ sleep_list k')
              /\ (CallThreadUnblock t ∉ new_calls k k')
              /\ thread_state t k' = Some THREAD_BLOCKED)).
Proof.
  intros Hwf. split.
  - intros d Hd Hmin Hmax.
    split; [done|]. split; [by apply sleep_entry_deadline|].
    destruct (decide (intr_get_level k = INTR_ON)) as [Hon|Hoff].
    + by rewrite timer_sleep_positive.
    + by rewrite timer_sleep_panic.
  - intros st Hin k' t. split.
    + by apply due_sleeper_wakes.
    + by apply pending_sleeper_sleeps_on.
Qed.

Lemma sleep_deadline_and_wake_witness :
  let k := three_sleepers in
  let k' := timer_interrupt k in
  wf k
  /\ (st_thread (sleep_entry 100 k) = current (threads k)
      /\ wake_tick (sleep_entry 100 k) = ticks k + 100
      /\ match timer_sleep 100 k with
         | Ok k1 => sleep_list k1 = sleep_list k ++ [sleep_entry 100 k]
         | Panic => intr_get_level k <> INTR_ON
         end)
  /\ ((mk_sleeping 1%nat 6 (Some 4) (Some 0) ∉ sleep_list k')
      /\ (CallThreadUnblock 1%nat ∈ new_calls k k')
      /\ thread_state 1%nat k' = Some THREAD_READY
      /\ (1%nat ∈ ready_threads (threads k')))
  /\ ((mk_sleeping 2%nat 9 (Some 19) (Some 0) ∈ sleep_list k')
      /\ (CallThreadUnblock 2%nat ∉ new_calls k k')
      /\ thread_state 2%nat k' = Some THREAD_BLOCKED).
Proof.
  intros k k'.
  destruct (sleep_deadline_and_wake three_sleepers wf_three_sleepers)
    as [Hsleep Hwake].
  split; [exact wf_three_sleepers|]. split; [|split].
  - apply Hsleep; [lia|by vm_compute|by vm_compute].
  - apply (Hwake (mk_sleeping 1%nat 6 (Some 4) (Some 0)));
      [compute_done|by vm_compute].
  - apply (Hwake (mk_sleeping 2%nat 9 (Some 19) (Some 0)));
      [compute_done|by vm_compute].
Defined.

(** C3, as stated, fails where [now + duration] overflows [int64_t]: at tick
    5, [timer_sleep (INT64_MAX)] files the caller with a [wake_tick] far in
    the past, and the very next interrupt wakes it. *)
Lemma sleep_deadline_overflow :
  let k := sample_kernel true in
  let st := sleep_entry Int64.max k in
  wake_tick st <> ticks k + Int64.max
  /\ wake_tick st = Int64.min + 4
  /\ sleep_list (asleep_for Int64.max k) = [st]
  /\ sleep_list (timer_interrupt (asleep_for Int64.max k)) = [].
Proof. by vm_compute. Qed.

(** C5.  No early wake.  In a well-formed state, an interrupt after which
    the tick count is still below the [wake_tick] of an entry keeps the
    entry in the sleep list, does not unblock its thread and leaves the
    thread blocked.  So along every run of interrupts, sleeps and yields that
    stays below the [wake_tick], the entry is still there at the end, its
    thread is blocked and has not been unblocked. *)
Theorem no_early_wake k st :
  wf k ->
  st ∈ sleep_list k ->
  (ticks (timer_interrupt k) < wake_tick st ->
     (st ∈ sleep_list (timer_interrupt k))
     /\ (CallThreadUnblock (st_thread st) ∉ new_calls k (timer_interrupt k))
     /\ thread_state (st_thread st) (timer_interrupt k) = Some THREAD_BLOCKED)
  /\ (forall k',
        rtc (step_before (wake_tick st)) k k' ->
        (st ∈ sleep_list k')
        /\ (CallThreadUnblock (st_thread st) ∉ new_calls k k')
        /\ thread_state (st_thread st) k' = Some THREAD_BLOCKED).
Proof.
  intros Hwf Hin. split; [by apply pending_sleeper_sleeps_on|].
  intros k' Hrun.
  assert (wf k' /\ (st ∈ sleep_list k')
          /\ exists l, calls k' = calls k ++ l
                       /\ (CallThreadUnblock (st_thread st) ∉ l))
    as (Hwf' & Hin' & l & Hl & Hnot).
  { revert k' Hrun. apply rtc_ind_r; [|intros k1 k2 Hrun [Hstep Hlt] IH].
    - split_and!; [done..|]. exists []. split; [by rewrite (right_id_L [] (++))|].
      apply not_elem_of_nil.
    - destruct IH as (Hwf1 & Hin1 & l & Hl & Hnot).
      split; [by eapply wf_step|].
      destruct Hstep as [k1|k1 d k2 Hidle Hk2|k1].
      + destruct (pending_sleeper_sleeps_on k1 st) as (? & Hno & _); [done..|].
        split; [done|].
        exists (l ++ new_calls k1 (timer_interrupt k1)). split.
        * rewrite (assoc_L (++)), <- Hl, calls_timer_interrupt.
          by rewrite (new_calls_app _ _ _ (calls_timer_interrupt k1)).
        * rewrite not_elem_of_app. done.
      + destruct (decide (intr_get_level k1 = INTR_ON)) as [Hon|Hoff];
          [|by rewrite timer_sleep_panic in Hk2].
        rewrite timer_sleep_unfold in Hk2 by done.
        destruct (d <=? 0); simplify_eq.
        * split; [done|]. by exists l.
        * split; [simpl; apply elem_of_app; by left|].
          exists (l ++ [CallThreadBlock (current (threads k1))]). simpl.
          split; [by rewrite Hl, (assoc_L (++))|].
          rewrite not_elem_of_app. split; [done|].
          by intros ?%list_elem_of_singleton.
      + split; [done|]. by exists l. }
  split_and!; [done| |by apply sleeper_blocked].
  by rewrite (new_calls_app _ _ _ Hl).
Qed.

Lemma no_early_wake_witness :
  let k := three_sleepers in
  let st := mk_sleeping 2%nat 9 (Some 19) (Some 0) in
  wf k
  /\ (st ∈ sleep_list k)
  /\ ticks (timer_interrupt k) < wake_tick st
  /\ rtc (step_before (wake_tick st)) k (Nat.iter 3 timer_interrupt k)
  /\ (st ∈ sleep_list (timer_interrupt k))
  /\ (CallThreadUnblock 2%nat ∉ new_calls k (timer_interrupt k))
  /\ thread_state 2%nat (timer_interrupt k) = Some THREAD_BLOCKED
  /\ (st ∈ sleep_list (Nat.iter 3 timer_interrupt k))
  /\ (CallThreadUnblock 2%nat ∉ new_calls k (Nat.iter 3 timer_interrupt k))
  /\ thread_state 2%nat (Nat.iter 3 timer_interrupt k) = Some THREAD_BLOCKED.
Proof.
  intros k st.
  assert (st ∈ sleep_list k) as Hin by compute_done.
  assert (ticks (timer_interrupt k) < wake_tick st) as Hlt by (by vm_compute).
  assert (rtc (step_before (wake_tick st)) k (Nat.iter 3 timer_interrupt k))
    as Hrun.
  { simpl. repeat (eapply rtc_r; [|split; [apply step_tick|by vm_compute]]).
    apply rtc_refl. }
  destruct (no_early_wake three_sleepers st wf_three_sleepers Hin) as [H1 H2].
  split; [exact wf_three_sleepers|]. split; [exact Hin|].
  split; [exact Hlt|]. split; [exact Hrun|].
  destruct (H1 Hlt) as (? & ? & ?). destruct (H2 _ Hrun) as (? & ? & ?).
  repeat split; assumption.
Defined.

(** ** The policy flag and the legacy policy *)

Lemma thread_mlfqs_schedule sc : thread_mlfqs (schedule sc) = thread_mlfqs sc.
Proof.
  unfold schedule. destruct (next_thread_to_run sc) as [t sc1] eqn:E. simpl.
  by apply thread_mlfqs_next in E.
Qed.

Lemma thread_mlfqs_thread_block sc :
  thread_mlfqs (thread_block sc) = thread_mlfqs sc.
Proof. unfold thread_block. by rewrite thread_mlfqs_schedule. Qed.

Lemma thread_mlfqs_thread_yield sc :
  thread_mlfqs (thread_yield sc) = thread_mlfqs sc.
Proof.
  unfold thread_yield. rewrite thread_mlfqs_schedule.
  destruct (decide _); [done|]. by rewrite thread_mlfqs_enqueue.
Qed.

Lemma timer_sleep_Ok d k k' :
  timer_sleep d k = Ok k' ->
  k' = k
  \/ k' = k_thread_block
            (list_push_back (sleep_entry d k) (with_intr_level INTR_OFF k)).
Proof.
  intros Hk'. destruct (decide (intr_get_level k = INTR_ON)) as [Hon|Hoff];
    [|by rewrite timer_sleep_panic in Hk'].
  rewrite timer_sleep_unfold in Hk' by done.
  destruct (d <=? 0); simplify_eq; auto.
Qed.

Lemma mlfq_state_timer_sleep d k k' t :
  timer_sleep d k = Ok k' -> mlfq_state t k' = mlfq_state t k.
Proof.
  intros [->| ->]%timer_sleep_Ok; [done|].
  unfold mlfq_state. simpl. apply fields_thread_block.
Qed.

Lemma thread_mlfqs_step k k' :
  step k k' -> thread_mlfqs (threads k') = thread_mlfqs (threads k).
Proof.
  intros [k1|k1 d k2 _ [->| ->]%timer_sleep_Ok|k1]; simpl.
  - apply thread_mlfqs_timer_interrupt.
  - done.
  - apply thread_mlfqs_thread_block.
  - apply thread_mlfqs_thread_yield.
Qed.

Lemma thread_mlfqs_steps k k' :
  rtc step k k' -> thread_mlfqs (threads k') = thread_mlfqs (threads k).
Proof.
  induction 1 as [|k1 k2 k3 Hstep _ IH]; [done|].
  by rewrite IH, (thread_mlfqs_step _ _ Hstep).
Qed.

(** Under the legacy policy the loop changes statuses only. *)
Lemma fields_wake_loop_legacy before after k t :
  thread_mlfqs (threads k) = false ->
  mlfq_fields <$> all_threads (threads (wake_loop before after k)) !! t
  = mlfq_fields <$> all_threads (threads k) !! t.
Proof.
  revert before k. induction after as [|st after IH]; intros before k Hm; [done|].
  rewrite wake_loop_unfold. destruct (decide _); [|by apply IH].
  rewrite IH by (by rewrite thread_mlfqs_wake).
  rewrite lookup_wake, Hm. destruct (decide _); [|done].
  by destruct (_ !! t).
Qed.

Lemma mlfq_state_timer_interrupt_legacy k t :
  thread_mlfqs (threads k) = false ->
  mlfq_state t (timer_interrupt k) = mlfq_state t k.
Proof.
  intros Hm. unfold mlfq_state, timer_interrupt.
  rewrite fields_wake_loop_legacy; simpl; unfold thread_tick; by rewrite Hm.
Qed.

Lemma mlfq_state_step_legacy k k' t :
  thread_mlfqs (threads k) = false -> step k k' ->
  mlfq_state t k' = mlfq_state t k.
Proof.
  intros Hm Hstep. destruct Hstep as [k1|k1 d k2 _ Hk2|k1].
  - by apply mlfq_state_timer_interrupt_legacy.
  - by apply (mlfq_state_timer_sleep d k1 k2).
  - unfold mlfq_state. simpl. apply fields_thread_yield.
Qed.

(** C6.  Under the legacy policy ([thread_mlfqs] false) the sleep path takes
    no snapshot and restores nothing: the entry [timer_sleep] builds has both
    saved fields unwritten, and neither [timer_sleep] nor [timer_interrupt]
    changes [mlfq_priority] or [ticks_at_priority] of any thread; so along
    every run of interrupts, sleeps and yields, through a whole sleep and the
    wake-up that ends it, every thread keeps the two fields it had. *)
Theorem legacy_sleep_keeps_mlfq_state k :
  thread_mlfqs (threads k) = false ->
  (forall d,
     saved_mlfq_priority (sleep_entry d k) = None
     /\ saved_ticks_at_priority (sleep_entry d k) = None)
  /\ (forall d k' t, timer_sleep d k = Ok k' -> mlfq_state t k' = mlfq_state t k)
  /\ (forall t, mlfq_state t (timer_interrupt k) = mlfq_state t k)
  /\ (forall k',
        rtc step k k' ->
        thread_mlfqs (threads k') = false
        /\ forall t, mlfq_state t k' = mlfq_state t k).
Proof.
  intros Hm. split_and!.
  - intros d. unfold sleep_entry. simpl. by rewrite Hm.
  - intros d k' t. apply mlfq_state_timer_sleep.
  - intros t. by apply mlfq_state_timer_interrupt_legacy.
  - intros k' Hrun. induction Hrun as [|k1 k2 k3 Hstep Hrun IH]; [done|].
    destruct IH as [Hm3 IH]; [by rewrite (thread_mlfqs_step _ _ Hstep)|].
    split; [done|]. intros t.
    by rewrite IH, (mlfq_state_step_legacy _ _ _ Hm Hstep).
Qed.

Lemma legacy_sleep_keeps_mlfq_state_witness :
  let k := sample_kernel false in
  let k' := Nat.iter 3 timer_interrupt (asleep_for 2 k) in
  thread_mlfqs (threads k) = false
  /\ saved_mlfq_priority (sleep_entry 2 k) = None
  /\ saved_ticks_at_priority (sleep_entry 2 k) = None
  /\ sleepers (asleep_for 2 k) = [1%nat]
  /\ sleepers k' = []
  /\ thread_state 1%nat k' = Some THREAD_READY
  /\ mlfq_state 1%nat k' = mlfq_state 1%nat k.
Proof.
  intros k k'.
  destruct (legacy_sleep_keeps_mlfq_state (sample_kernel false) eq_refl)
    as (Hentry & _ & _ & Hrun).
  destruct (Hentry 2) as [H1 H2].
  split; [reflexivity|]. split; [exact H1|]. split; [exact H2|].
  do 3 (split; [by vm_compute|]).
  apply Hrun. eapply rtc_l; [|apply steps_ticks].
  apply (step_sleep k 2); by vm_compute.
Defined.

(** ** Sleeping through to the wake-up *)

Lemma sleep_entry_snapshot d k p n :
  thread_mlfqs (threads k) = true ->
  mlfq_state (current (threads k)) k = Some (p, n) ->
  saved_mlfq_priority (sleep_entry d k) = Some p
  /\ saved_ticks_at_priority (sleep_entry d k) = Some n.
Proof.
  unfold mlfq_state, sleep_entry, thread_field, k_thread_current, thread_current.
  simpl. intros -> Hst.
  destruct (all_threads (threads k) !! current (threads k)); [|done].
  simpl in *. unfold mlfq_fields in Hst. by simplify_eq.
Qed.

(** When no interrupt comes between line 143 and line 167 of the call, the
    sleep keeps the MLFQ state.  A thread with [mlfq_priority = p] and
    [ticks_at_priority = n] calls [timer_sleep] with a positive duration in
    a well-formed state; the kernel then runs through any interrupts,
    uninterrupted sleeps and yields, at the end of which the entry of the
    thread is still in the sleep list; the next interrupt reaches its
    [wake_tick].  After that interrupt the thread has exactly [p] and [n]
    again, is ready, and its entry is gone. *)
Lemma uninterrupted_sleep_keeps_mlfq_state k0 d p n k1 k2 :
  wf k0 ->
  thread_mlfqs (threads k0) = true ->
  current (threads k0) ≠ idle_thread (threads k0) ->
  mlfq_state (current (threads k0)) k0 = Some (p, n) ->
  0 < d ->
  timer_sleep d k0 = Ok k1 ->
  rtc step (dispatched k1) k2 ->
  sleep_entry d k0 ∈ sleep_list k2 ->
  wake_tick (sleep_entry d k0) <= ticks (timer_interrupt k2) ->
  let t := current (threads k0) in
  let k3 := timer_interrupt k2 in
  mlfq_state t k3 = Some (p, n)
  /\ thread_state t k3 = Some THREAD_READY
  /\ (sleep_entry d k0 ∉ sleep_list k3)
  /\ (CallThreadUnblock t ∈ new_calls k2 k3).
Proof.
  intros Hwf Hm Hidle Hst Hd Hk1 Hrun Hin Hdue t k3.
  assert (wf k2) as Hwf2.
  { eapply wf_steps; [exact Hrun|]. by apply wf_dispatched, (wf_timer_sleep d k0). }
  assert (thread_mlfqs (threads k2) = true) as Hm2.
  { rewrite (thread_mlfqs_steps _ _ Hrun). simpl.
    apply timer_sleep_Ok in Hk1 as [->| ->]; [done|].
    simpl. by rewrite thread_mlfqs_thread_block. }
  destruct (sleep_entry_snapshot d k0 p n Hm Hst) as [Hp Hn].
  destruct (due_sleeper_wakes k2 _ Hwf2 Hin Hdue) as (? & ? & ? & _).
  split_and!; try done.
  by apply (wake_restores_snapshot k2 (sleep_entry d k0)).
Qed.

(** ** A boost during the sleep *)

(** C1 asks that a thread which slept through a boost wakes at the top level
    with a fresh quantum.  The scenario of the specification, run on the
    code: at tick 5 a thread at level 0 with 3 ticks used sleeps for 100
    ticks.  The boost of tick 50 lifts it, asleep, to level 19 with 0 ticks,
    and so it stays up to tick 104.  The interrupt of tick 105 wakes it and
    writes the state saved at tick 5 over the boost: level 0, 3 ticks, and
    the thread is queued at level 0. *)
Theorem boost_during_sleep_undone_on_wake :
  let k1 := asleep_for 100 lone_sleeper in
  let at_tick (n : nat) := Nat.iter (n - 5) timer_interrupt k1 in
  sleep_list k1 = [mk_sleeping 1%nat 105 (Some 0) (Some 3)]
  /\ (ticks (at_tick 49%nat) = 49
      /\ mlfq_state 1%nat (at_tick 49%nat) = Some (0, 3))
  /\ (ticks (at_tick 50%nat) = 50
      /\ boost_ticks (threads (at_tick 50%nat)) = 0
      /\ mlfq_state 1%nat (at_tick 50%nat) = Some (19, 0)
      /\ thread_state 1%nat (at_tick 50%nat) = Some THREAD_BLOCKED)
  /\ (ticks (at_tick 104%nat) = 104
      /\ mlfq_state 1%nat (at_tick 104%nat) = Some (19, 0)
      /\ thread_state 1%nat (at_tick 104%nat) = Some THREAD_BLOCKED)
  /\ (ticks (at_tick 105%nat) = 105
      /\ sleep_list (at_tick 105%nat) = []
      /\ mlfq_state 1%nat (at_tick 105%nat) = Some (0, 3)
      /\ thread_state 1%nat (at_tick 105%nat) = Some THREAD_READY
      /\ mlfq_queues (threads (at_tick 105%nat)) !! 0%nat = Some [1%nat]
      /\ mlfq_queues (threads (at_tick 105%nat)) !! 19%nat = Some []).
Proof. by vm_compute. Qed.

(** * Further properties of [timer.c] *)

(** ** Elapsed time *)

Lemma Int64_wrap_add_l a b : Int64.wrap (Int64.wrap a + b) = Int64.wrap (a + b).
Proof.
  unfold Int64.wrap.
  replace ((a + 2 ^ 63) mod 2 ^ 64 - 2 ^ 63 + b + 2 ^ 63)
    with ((a + 2 ^ 63) mod 2 ^ 64 + b) by lia.
  rewrite Z.add_mod_idemp_l by lia. f_equal. f_equal. lia.
Qed.

Lemma ticks_iter_interrupt n k :
  Int64.in_range (ticks k) ->
  ticks (Nat.iter n timer_interrupt k) = Int64.wrap (ticks k + Z.of_nat n).
Proof.
  intros Hr. induction n as [|n IH].
  - simpl. rewrite Z.add_0_r. symmetry. by apply Int64_wrap_in_range.
  - rewrite Nat.iter_succ, ticks_timer_interrupt, IH. unfold Int64.add.
    rewrite Int64_wrap_add_l. f_equal. lia.
Qed.

Lemma intr_level_wake_loop before after k :
  intr_level (wake_loop before after k) = intr_level k.
Proof.
  revert before k. induction after as [|st after IH]; intros before k; [done|].
  rewrite wake_loop_unfold. destruct (decide _); rewrite IH; [|done].
  unfold wake. by destruct (thread_mlfqs _).
Qed.

(** X1.  [timer_elapsed] counts the interrupts since the tick count it is
    given was read: after [n] interrupts, with [n] up to [INT64_MAX], it
    returns exactly [n], also when the counter has wrapped in between; and
    like [timer_ticks] it leaves the state, the interrupt level included,
    as it found it. *)
Theorem timer_elapsed_counts_interrupts k n :
  Int64.in_range (ticks k) ->
  Z.of_nat n <= Int64.max ->
  let k' := Nat.iter n timer_interrupt k in
  timer_elapsed (ticks k) k' = (Z.of_nat n, k')
  /\ timer_ticks k' = (ticks k', k').
Proof.
  intros Hr Hn k'. unfold timer_elapsed. rewrite timer_ticks_spec.
  split; [|done]. f_equal. subst k'. rewrite ticks_iter_interrupt by done.
  unfold Int64_sub.
  replace (Int64.wrap (ticks k + Z.of_nat n) - ticks k)
    with (Int64.wrap (ticks k + Z.of_nat n) + - ticks k) by lia.
  rewrite Int64_wrap_add_l.
  replace (ticks k + Z.of_nat n + - ticks k) with (Z.of_nat n) by lia.
  apply Int64_wrap_in_range. unfold Int64.in_range, Int64.min. lia.
Qed.

(** Three interrupts from two ticks below [INT64_MAX]: the counter wraps, the
    elapsed time is three. *)
Lemma timer_elapsed_counts_interrupts_witness :
  let k := with_ticks (Int64.max - 1) (sample_kernel true) in
  let k' := Nat.iter 3 timer_interrupt k in
  Int64.in_range (ticks k)
  /\ Z.of_nat 3 <= Int64.max
  /\ ticks k' = Int64.min + 1
  /\ timer_elapsed (ticks k) k' = (Z.of_nat 3, k')
  /\ timer_ticks k' = (ticks k', k').
Proof.
  intros k k'.
  assert (Int64.in_range (ticks k)) as H1 by (by vm_compute).
  assert (Z.of_nat 3 <= Int64.max) as H2 by (by vm_compute).
  split; [exact H1|]. split; [exact H2|]. split; [by vm_compute|].
  exact (timer_elapsed_counts_interrupts k 3 H1 H2).
Defined.

Lemma wf_iter_interrupt n k : wf k -> wf (Nat.iter n timer_interrupt k).
Proof.
  intros Hwf. induction n as [|n IH]; [done|].
  rewrite Nat.iter_succ. by apply wf_timer_interrupt.
Qed.

(** ** Busy waits *)

Lemma real_time_delay_Ok TIMER_FREQ num denom k :
  0 < denom -> Z.rem denom 1000 = 0 ->
  real_time_delay TIMER_FREQ num denom k =
    Ok (busy_wait
          (Int64.mul (Int64.mul (loops_per_tick k) num ÷ 1000) TIMER_FREQ
             ÷ (denom ÷ 1000)) k).
Proof.
  intros Hden Hrem. unfold real_time_delay.
  destruct (decide _) as [_|]; [|done].
  assert (0 < denom ÷ 1000) as Hq.
  { pose proof (Z.quot_rem' denom 1000) as Heq. rewrite Hrem in Heq.
    apply Z.quot_str_pos. lia. }
  by rewrite Int64_div_pos.
Qed.

(** X3.  [timer_mdelay], [timer_udelay] and [timer_ndelay] never fail and
    never block: for every argument, every [TIMER_FREQ] and every state,
    with interrupts on or off, the call is one busy wait and leaves the
    state as it was, since the three denominators pass the assertion of
    [real_time_delay] and never make the last division one by zero. *)
Theorem delays_only_busy_wait TIMER_FREQ n k :
  (exists loops, timer_mdelay TIMER_FREQ n k = Ok (busy_wait loops k))
  /\ (exists loops, timer_udelay TIMER_FREQ n k = Ok (busy_wait loops k))
  /\ (exists loops, timer_ndelay TIMER_FREQ n k = Ok (busy_wait loops k))
  /\ forall loops,
       let k' := busy_wait loops k in
       ticks k' = ticks k /\ sleep_list k' = sleep_list k
       /\ threads k' = threads k /\ intr_level k' = intr_level k
       /\ loops_per_tick k' = loops_per_tick k
       /\ new_calls k k' = [CallBusyWait loops].
Proof.
  unfold timer_mdelay, timer_udelay, timer_ndelay.
  split_and!; try (eexists; by apply real_time_delay_Ok).
  intros loops. split_and!; try done.
  by apply new_calls_app.
Qed.

(** X4.  The scaling by 1000 in [real_time_delay] leaves one product that
    can overflow: if [loops_per_tick * num] fits [int64_t], with both
    factors not negative and the denominator a positive multiple of 1000,
    the busy wait runs [loops_per_tick * num / 1000 * TIMER_FREQ /
    (denom / 1000)] loops, all divisions rounding down; that is never
    negative and never more than the [loops_per_tick * num * TIMER_FREQ /
    denom] loops that [num / denom] seconds take. *)
Theorem real_time_delay_loops TIMER_FREQ num denom k :
  19 <= TIMER_FREQ <= 1000 ->
  0 <= loops_per_tick k ->
  0 <= num ->
  loops_per_tick k * num <= Int64.max ->
  0 < denom ->
  Z.rem denom 1000 = 0 ->
  let loops := loops_per_tick k * num / 1000 * TIMER_FREQ / (denom / 1000) in
  real_time_delay TIMER_FREQ num denom k = Ok (busy_wait loops k)
  /\ 0 <= loops <= loops_per_tick k * num * TIMER_FREQ / denom.
Proof.
  intros HF Hl Hnum Hfit Hden Hrem loops.
  set (a := loops_per_tick k * num) in *.
  assert (0 <= a) as Ha by (subst a; nia).
  assert (0 <= a / 1000 <= a) as Hq1.
  { split; [apply Z.div_pos; lia|]. apply Z.div_le_upper_bound; lia. }
  assert (1000 * (a / 1000) <= a) as Hm1 by (apply Z.mul_div_le; lia).
  assert (denom = 1000 * (denom / 1000) /\ 0 < denom / 1000) as [Hd Hq].
  { rewrite Z.rem_mod_nonneg in Hrem by lia.
    pose proof (Z.div_mod denom 1000). lia. }
  rewrite real_time_delay_Ok by done.
  rewrite (Int64_mul_in_range (loops_per_tick k) num)
    by (unfold Int64.in_range, Int64.min, Int64.max in *; subst a; lia).
  fold a. rewrite (Z.quot_div_nonneg a 1000) by lia.
  rewrite Int64_mul_in_range
    by (unfold Int64.in_range, Int64.min, Int64.max in *; nia).
  rewrite (Z.quot_div_nonneg denom 1000) by lia.
  rewrite Z.quot_div_nonneg by nia.
  split; [done|]. subst loops. split.
  - apply Z.div_pos; nia.
  - apply Z.div_le_lower_bound; [lia|].
    pose proof (Z.mul_div_le (a / 1000 * TIMER_FREQ) (denom / 1000) Hq).
    nia.
Qed.

Lemma real_time_delay_loops_witness :
  let k := sample_kernel true in
  19 <= 100 <= 1000
  /\ 0 <= loops_per_tick k
  /\ 0 <= 2500
  /\ loops_per_tick k * 2500 <= Int64.max
  /\ 0 < 1000 * 1000
  /\ Z.rem (1000 * 1000) 1000 = 0
  /\ timer_udelay 100 2500 k = Ok (busy_wait 256 k)
  /\ 0 <= 256 <= loops_per_tick k * 2500 * 100 / (1000 * 1000).
Proof.
  intros k.
  assert (19 <= 100 <= 1000) as H1 by lia.
  assert (0 <= loops_per_tick k) as H2 by (by vm_compute).
  assert (0 <= 2500) as H3 by lia.
  assert (loops_per_tick k * 2500 <= Int64.max) as H4 by (by vm_compute).
  assert (0 < 1000 * 1000) as H5 by lia.
  assert (Z.rem (1000 * 1000) 1000 = 0) as H6 by reflexivity.
  do 6 (split; [assumption|]).
  exact (real_time_delay_loops 100 2500 (1000 * 1000) k H1 H2 H3 H4 H5 H6).
Defined.

(** ** Real-time sleeps *)

Lemma real_time_sleep_ticks TIMER_FREQ num denom :
  0 <= TIMER_FREQ -> 0 <= num -> num * TIMER_FREQ <= Int64.max -> 0 < denom ->
  Int64.div (Int64.mul num TIMER_FREQ) denom = Some (num * TIMER_FREQ / denom).
Proof.
  intros HF Hnum Hfit Hden.
  rewrite Int64_mul_in_range
    by (unfold Int64.in_range, Int64.min, Int64.max in *; nia).
  rewrite Int64_div_pos by done. f_equal. apply Z.quot_div_nonneg; nia.
Qed.

(** X5.  A sleep of at least one tick is the same sleep in every unit:
    [timer_msleep (ms)], [timer_usleep (1000 * ms)] and
    [timer_nsleep (1000000 * ms)] all are [timer_sleep] for
    [ms * TIMER_FREQ / 1000] ticks, as long as the largest of the three
    products with [TIMER_FREQ] fits [int64_t]. *)
Theorem real_time_sleep_units_agree TIMER_FREQ ms k :
  19 <= TIMER_FREQ <= 1000 ->
  0 <= ms ->
  1000000 * ms * TIMER_FREQ <= Int64.max ->
  0 < ms * TIMER_FREQ / 1000 ->
  timer_msleep TIMER_FREQ ms k = timer_sleep (ms * TIMER_FREQ / 1000) k
  /\ timer_usleep TIMER_FREQ (1000 * ms) k = timer_sleep (ms * TIMER_FREQ / 1000) k
  /\ timer_nsleep TIMER_FREQ (1000000 * ms) k
     = timer_sleep (ms * TIMER_FREQ / 1000) k.
Proof.
  intros HF Hms Hfit Hpos.
  assert (forall c, 0 < c -> c <= 1000000 ->
            real_time_sleep TIMER_FREQ (c * ms) (c * 1000) k
            = timer_sleep (ms * TIMER_FREQ / 1000) k) as Hunit.
  { intros c Hc Hc'. unfold real_time_sleep.
    rewrite real_time_sleep_ticks by nia.
    replace (c * ms * TIMER_FREQ) with (c * (ms * TIMER_FREQ)) by lia.
    rewrite Z.div_mul_cancel_l by lia.
    rewrite (proj2 (Z.ltb_lt 0 _)) by done.
    destruct (decide _) as [|Hoff]; [done|]. by rewrite timer_sleep_panic. }
  unfold timer_msleep, timer_usleep, timer_nsleep. split_and!.
  - specialize (Hunit 1). rewrite !Z.mul_1_l in Hunit. apply Hunit; lia.
  - apply (Hunit 1000); lia.
  - apply (Hunit 1000000); lia.
Qed.

Lemma real_time_sleep_units_agree_witness :
  let k := sample_kernel true in
  19 <= 100 <= 1000
  /\ 0 <= 250
  /\ 1000000 * 250 * 100 <= Int64.max
  /\ 0 < 250 * 100 / 1000
  /\ timer_msleep 100 250 k = timer_sleep 25 k
  /\ timer_usleep 100 250000 k = timer_sleep 25 k
  /\ timer_nsleep 100 250000000 k = timer_sleep 25 k.
Proof.
  intros k.
  assert (19 <= 100 <= 1000) as H1 by lia.
  assert (0 <= 250) as H2 by lia.
  assert (1000000 * 250 * 100 <= Int64.max) as H3 by (by vm_compute).
  assert (0 < 250 * 100 / 1000) as H4 by (by vm_compute).
  do 4 (split; [assumption|]).
  exact (real_time_sleep_units_agree 100 250 k H1 H2 H3 H4).
Defined.

Lemma quot_nonpos a b : a <= 0 -> 0 < b -> a <= b * (a ÷ b) /\ a ÷ b <= 0.
Proof.
  intros Ha Hb.
  assert (a ÷ b = - (- a ÷ b)) as -> by (rewrite Z.quot_opp_l; lia).
  rewrite Z.quot_div_nonneg by lia.
  assert (0 <= - a / b) by (apply Z.div_pos; lia).
  assert (b * (- a / b) <= - a) by (apply Z.mul_div_le; lia).
  lia.
Qed.

(** X6.  A real-time sleep of no time or of negative time returns without
    blocking: for [num <= 0] whose products with [TIMER_FREQ] and with
    [loops_per_tick] fit [int64_t], a denominator that is a positive multiple
    of 1000 and interrupts on, [real_time_sleep] is one busy wait of a loop
    count that is not positive, so that the loop of [busy_wait] does not run
    once. *)
Theorem real_time_sleep_nonpositive TIMER_FREQ num denom k :
  19 <= TIMER_FREQ <= 1000 ->
  0 <= loops_per_tick k ->
  num <= 0 ->
  Int64.min <= num * TIMER_FREQ ->
  Int64.min <= loops_per_tick k * num ->
  0 < denom ->
  Z.rem denom 1000 = 0 ->
  intr_get_level k = INTR_ON ->
  exists loops,
    real_time_sleep TIMER_FREQ num denom k = Ok (busy_wait loops k)
    /\ loops <= 0.
Proof.
  intros HF Hl Hnum Hfit1 Hfit2 Hden Hrem Hon.
  assert (0 < denom ÷ 1000) as Hq.
  { pose proof (Z.quot_rem' denom 1000) as Heq. rewrite Hrem in Heq.
    apply Z.quot_str_pos. lia. }
  assert (num * TIMER_FREQ <= 0) as Hn0 by nia.
  assert (loops_per_tick k * num <= 0) as Ha by nia.
  unfold real_time_sleep.
  rewrite Int64_mul_in_range
    by (unfold Int64.in_range, Int64.min, Int64.max in *; lia).
  rewrite Int64_div_pos by done.
  destruct (quot_nonpos (num * TIMER_FREQ) denom Hn0 Hden) as [_ Hle].
  destruct (decide _) as [_|]; [|done].
  rewrite (proj2 (Z.ltb_ge 0 _)) by lia.
  rewrite real_time_delay_Ok by done. eexists. split; [done|].
  rewrite (Int64_mul_in_range (loops_per_tick k) num)
    by (unfold Int64.in_range, Int64.min, Int64.max in *; lia).
  set (a := loops_per_tick k * num) in *.
  destruct (quot_nonpos a 1000 Ha) as [Hq1 Hq2]; [lia|].
  assert (a <= a ÷ 1000 * TIMER_FREQ <= 0) as Hb by nia.
  rewrite Int64_mul_in_range
    by (unfold Int64.in_range, Int64.min, Int64.max in *; lia).
  destruct (quot_nonpos (a ÷ 1000 * TIMER_FREQ) (denom ÷ 1000)); lia.
Qed.

Lemma real_time_sleep_nonpositive_witness :
  let k := sample_kernel true in
  19 <= 100 <= 1000
  /\ 0 <= loops_per_tick k
  /\ -250 <= 0
  /\ Int64.min <= -250 * 100
  /\ Int64.min <= loops_per_tick k * -250
  /\ 0 < 1000
  /\ Z.rem 1000 1000 = 0
  /\ intr_get_level k = INTR_ON
  /\ exists loops,
       timer_msleep 100 (-250) k = Ok (busy_wait loops k) /\ loops <= 0.
Proof.
  intros k.
  assert (19 <= 100 <= 1000) as H1 by lia.
  assert (0 <= loops_per_tick k) as H2 by (by vm_compute).
  assert (-250 <= 0) as H3 by lia.
  assert (Int64.min <= -250 * 100) as H4 by (by vm_compute).
  assert (Int64.min <= loops_per_tick k * -250) as H5 by (by vm_compute).
  assert (0 < 1000) as H6 by lia.
  assert (Z.rem 1000 1000 = 0) as H7 by reflexivity.
  assert (intr_get_level k = INTR_ON) as H8 by reflexivity.
  do 8 (split; [assumption|]).
  exact (real_time_sleep_nonpositive 100 (-250) 1000 k H1 H2 H3 H4 H5 H6 H7 H8).
Defined.

(** ** Calibration *)

Lemma lor_pow2 l e :
  0 <= e -> (2 ^ (e + 1) | l) -> Z.lor l (2 ^ e) = l + 2 ^ e.
Proof.
  intros He [q ->].
  assert (Z.land (q * 2 ^ (e + 1)) (2 ^ e) = 0) as Hland.
  { apply Z.bits_inj'. intros i Hi.
    rewrite Z.land_spec, Z.bits_0, Z.pow2_bits_eqb by done.
    destruct (Z.eqb_spec e i) as [<-|]; [|apply andb_false_r].
    rewrite <- Z.shiftl_mul_pow2 by lia.
    rewrite Z.shiftl_spec_low by lia. done. }
  by rewrite (Z.add_nocarry_lxor _ _ Hland), (Z.lxor_lor _ _ Hland).
Qed.

Lemma shl_pow2 i :
  0 <= i <= 31 ->
  UInt32.shl (2 ^ i) 1 = if i =? 31 then 0 else 2 ^ (i + 1).
Proof.
  intros Hi. unfold UInt32.shl, UInt32.wrap, UInt32.modulus.
  rewrite Z.shiftl_mul_pow2 by lia. rewrite <- Z.pow_add_r by lia.
  destruct (Z.eqb_spec i 31) as [->|Hne]; [done|].
  apply Z.mod_small. split; [apply Z.pow_nonneg; lia|].
  apply Z.pow_lt_mono_r; lia.
Qed.

Lemma shiftr_pow2 a b : 0 <= b <= a -> Z.shiftr (2 ^ a) b = 2 ^ (a - b).
Proof.
  intros H. rewrite Z.shiftr_div_pow2 by lia.
  replace a with ((a - b) + b) at 1 by lia.
  rewrite Z.pow_add_r by lia. apply Z.div_mul.
  apply Z.pow_nonzero; lia.
Qed.

Section CalibrateFacts.

Variable too_many_loops : Z -> bool.

(** The doubling stops at a power of two between [2^10] and [2^31], or on
    the assertion when nothing up to [2^32] was too many; 22 rounds are
    enough from [2^10]. *)
Lemma calibrate_double_spec fuel j :
  10 <= j <= 31 ->
  (Z.to_nat (32 - j) <= fuel)%nat ->
  match calibrate_double too_many_loops fuel (2 ^ j) with
  | Some (Some hb) =>
      exists j',
        j <= j' <= 31 /\ hb = 2 ^ j'
        /\ too_many_loops (UInt32.wrap (2 ^ (j' + 1))) = true
        /\ forall i, j < i <= j' -> too_many_loops (2 ^ i) = false
  | Some None =>
      forall i, j < i <= 32 -> too_many_loops (UInt32.wrap (2 ^ i)) = false
  | None => False
  end.
Proof.
  revert j. induction fuel as [|fuel IH]; intros j Hj Hfuel; [lia|].
  assert (UInt32.wrap (2 ^ (j + 1)) = UInt32.shl (2 ^ j) 1) as Hshl.
  { unfold UInt32.shl. rewrite Z.shiftl_mul_pow2 by lia.
    by rewrite <- Z.pow_add_r by lia. }
  cbn [calibrate_double].
  destruct (too_many_loops (UInt32.shl (2 ^ j) 1)) eqn:Htm.
  - exists j. split_and!; [lia|lia|done|by rewrite Hshl|intros; lia].
  - pose proof Htm as Htm0. rewrite <- Hshl in Htm0.
    rewrite (shl_pow2 j) by lia.
    destruct (Z.eqb_spec j 31) as [Heq|Hne].
    + simpl. intros i Hi. replace i with (j + 1) by lia. done.
    + destruct (Z.eqb_spec (2 ^ (j + 1)) 0) as [H0|_].
      { pose proof (Z.pow_pos_nonneg 2 (j + 1)). lia. }
      assert (UInt32.wrap (2 ^ (j + 1)) = 2 ^ (j + 1)) as Hsmall.
      { apply Z.mod_small. split; [apply Z.pow_nonneg; lia|].
        apply Z.pow_lt_mono_r; lia. }
      specialize (IH (j + 1)).
      destruct (calibrate_double _ fuel (2 ^ (j + 1))) as [[hb|]|];
        [| |apply IH; lia].
      * destruct IH as (j' & Hj' & -> & Htop & Hbelow); [lia..|].
        exists j'. split_and!; [lia|lia|done|done|].
        intros i Hi. destruct (decide (i = j + 1)) as [->|].
        -- by rewrite <- Hsmall.
        -- apply Hbelow. lia.
      * intros i Hi. destruct (decide (i = j + 1)) as [->|].
        -- done.
        -- apply IH; lia.
Qed.

(** The refinement with [n] test bits left, the next one being bit [e + n]
    and the last one bit [e + 1]: it ends within the fuel, and its result
    lies less than [2^(e+n+1)] above the start, is a multiple of [2^(e+1)],
    and is the start itself or was measured and found not too many. *)
Lemma calibrate_refine_spec n fuel e l :
  0 <= e -> (n <= 10)%nat -> (n <= fuel)%nat ->
  0 <= l -> (2 ^ (e + Z.of_nat n + 1) | l) ->
  exists l',
    calibrate_refine too_many_loops fuel (2 ^ (e + 10)) (2 ^ (e + Z.of_nat n)) l
    = Some l'
    /\ l <= l' < l + 2 ^ (e + Z.of_nat n + 1)
    /\ (2 ^ (e + 1) | l')
    /\ (l' = l \/ too_many_loops l' = false)
    /\ (forall limit,
          (forall x, too_many_loops x = threshold limit x) ->
          limit < l + 2 ^ (e + Z.of_nat n + 1) ->
          limit < l' + 2 ^ (e + 1)).
Proof.
  intros He. revert fuel l.
  assert (Z.shiftr (2 ^ (e + 10)) 10 = 2 ^ e) as Hend.
  { rewrite shiftr_pow2 by lia. f_equal. lia. }
  induction n as [|n IH]; intros fuel l Hn Hfuel Hl Hdiv.
  - exists l. rewrite Z.add_0_r in *.
    assert (0 < 2 ^ (e + 1)) by (apply Z.pow_pos_nonneg; lia).
    split_and!; [|lia|lia|done|by left|done].
    destruct fuel; cbn [calibrate_refine]; by rewrite Hend, Z.eqb_refl.
  - destruct fuel as [|fuel]; [lia|].
    set (tb := 2 ^ (e + Z.of_nat (S n))) in *.
    assert (0 < tb) as Htb by (apply Z.pow_pos_nonneg; lia).
    assert (tb = 2 * 2 ^ (e + Z.of_nat n)) as Htb2.
    { subst tb. replace (e + Z.of_nat (S n)) with (Z.succ (e + Z.of_nat n)) by lia.
      by rewrite Z.pow_succ_r by lia. }
    assert (2 ^ (e + Z.of_nat (S n) + 1) = 2 * tb) as Htb3.
    { subst tb. by rewrite <- Z.pow_succ_r by lia. }
    assert ((tb =? Z.shiftr (2 ^ (e + 10)) 10) = false) as Hne.
    { rewrite Hend. apply Z.eqb_neq. subst tb.
      assert (2 ^ e < 2 ^ (e + Z.of_nat (S n)))
        by (apply Z.pow_lt_mono_r; lia).
      lia. }
    assert (Z.shiftr tb 1 = 2 ^ (e + Z.of_nat n)) as Hshr.
    { subst tb. rewrite shiftr_pow2 by lia. f_equal. lia. }
    assert (Z.lor l tb = l + tb) as Hlor.
    { subst tb. apply lor_pow2; [lia|done]. }
    assert ((2 ^ (e + Z.of_nat n + 1) | l)
            /\ (2 ^ (e + Z.of_nat n + 1) | (l + tb)))
      as [Hd1 Hd2].
    { replace (2 ^ (e + Z.of_nat n + 1)) with tb
        by (subst tb; f_equal; lia).
      rewrite Htb3 in Hdiv.
      assert (tb | l) by (etrans; [|exact Hdiv]; by exists 2).
      split; [done|]. apply Z.divide_add_r; [done|reflexivity]. }
    assert (2 ^ (e + Z.of_nat n + 1) = tb) as Htb4 by (subst tb; f_equal; lia).
    cbn [calibrate_refine]. rewrite Hne, Hshr, Hlor.
    rewrite Htb3 in *.
    destruct (too_many_loops (l + tb)) eqn:Htm.
    + destruct (IH fuel l) as (l' & Heq & Hb & Hd & Hm & Hlim); [lia..|done|].
      rewrite Htb4 in Hb, Hlim.
      exists l'. split_and!; [done|lia|lia|done|done|].
      intros limit Hth _. apply (Hlim limit Hth).
      rewrite Hth in Htm. unfold threshold in Htm. lia.
    + destruct (IH fuel (l + tb)) as (l' & Heq & Hb & Hd & Hm & Hlim);
        [lia..|done|].
      rewrite Htb4 in Hb, Hlim.
      exists l'. split_and!; [done|lia|lia|done| |].
      * right. destruct Hm as [->|]; done.
      * intros limit Hth Hlt. apply (Hlim limit Hth). lia.
Qed.

(** What [timer_calibrate] does with interrupts on. *)
Lemma timer_calibrate_spec k :
  intr_get_level k = INTR_ON ->
  (exists j v,
     10 <= j <= 31
     /\ timer_calibrate too_many_loops k = Some (Ok (with_loops_per_tick v k))
     /\ 2 ^ j <= v < 2 ^ (j + 1)
     /\ (2 ^ (j - 9) | v)
     /\ too_many_loops (UInt32.wrap (2 ^ (j + 1))) = true
     /\ (forall i, 10 < i <= j -> too_many_loops (2 ^ i) = false)
     /\ (v = 2 ^ j \/ too_many_loops v = false)
     /\ (forall limit,
           (forall x, too_many_loops x = threshold limit x) ->
           limit < 2 ^ (j + 1) -> limit < v + 2 ^ (j - 9)))
  \/ (timer_calibrate too_many_loops k = Some Panic
      /\ forall i, 10 < i <= 32 -> too_many_loops (UInt32.wrap (2 ^ i)) = false).
Proof.
  intros Hon. unfold timer_calibrate, timer_calibrate_fuel.
  destruct (decide _) as [_|]; [|done].
  change (UInt32.shl 1 10) with (2 ^ 10).
  pose proof (calibrate_double_spec 32 10) as Hd.
  destruct (calibrate_double too_many_loops 32 (2 ^ 10)) as [[hb|]|];
    [| |destruct Hd; lia].
  - destruct Hd as (j & Hj & -> & Htop & Hbelow); [lia..|].
    left. exists j.
    destruct (calibrate_refine_spec 9 32 (j - 10) (2 ^ j))
      as (v & Heq & Hb & Hdiv & Hm & Hlim); [lia..| | |].
    { apply Z.pow_nonneg. lia. }
    { replace (j - 10 + Z.of_nat 9 + 1) with j by lia. reflexivity. }
    replace (j - 10 + 10) with j in Heq by lia.
    replace (j - 10 + Z.of_nat 9) with (j - 1) in Heq by lia.
    replace (j - 10 + Z.of_nat 9 + 1) with j in Hb, Hlim by lia.
    replace (j - 10 + 1) with (j - 9) in Hdiv, Hlim by lia.
    rewrite shiftr_pow2 by lia. rewrite Heq.
    assert (2 ^ (j + 1) = 2 ^ j + 2 ^ j) as Hdbl.
    { replace (j + 1) with (Z.succ j) by lia. rewrite Z.pow_succ_r by lia. lia. }
    exists v. split_and!; try done; try lia.
    intros limit Hth Hlt. apply (Hlim limit Hth). lia.
  - right. split; [done|]. apply Hd; lia.
Qed.

End CalibrateFacts.

(** X7.  [timer_calibrate] ends after at most 22 doublings and 9 refinements,
    whatever the measurements say.  With interrupts on it either panics on
    its assertion, and then none of [2^11], ..., [2^31] nor the wrapped
    [2^32 = 0] was too many loops; or it sets [loops_per_tick], and nothing
    else, to a value [v] with [2^j <= v < 2^(j+1)] for some [10 <= j <= 31]
    that is a multiple of [2^(j-9)]: ten significant bits, never below
    1024.  Twice [2^j] was measured too many, no power of two up to [2^j]
    was, and [v] itself was measured and found not too many unless it is
    [2^j]. *)
Theorem timer_calibrate_shape too_many_loops k :
  match timer_calibrate too_many_loops k with
  | Some (Ok k') =>
      exists j,
        10 <= j <= 31
        /\ k' = with_loops_per_tick (loops_per_tick k') k
        /\ 2 ^ j <= loops_per_tick k' < 2 ^ (j + 1)
        /\ (2 ^ (j - 9) | loops_per_tick k')
        /\ too_many_loops (UInt32.wrap (2 ^ (j + 1))) = true
        /\ (forall i, 10 < i <= j -> too_many_loops (2 ^ i) = false)
        /\ (loops_per_tick k' = 2 ^ j
            \/ too_many_loops (loops_per_tick k') = false)
  | Some Panic =>
      intr_get_level k <> INTR_ON
      \/ forall i, 10 < i <= 32 -> too_many_loops (UInt32.wrap (2 ^ i)) = false
  | None => False
  end.
Proof.
  destruct (decide (intr_get_level k = INTR_ON)) as [Hon|Hoff].
  - destruct (timer_calibrate_spec too_many_loops k Hon)
      as [(j & v & Hj & -> & Hb & Hdiv & Htop & Hbelow & Hm & _)|[-> Hnone]].
    + exists j. change (loops_per_tick (with_loops_per_tick v k)) with v.
      split_and!; done || lia.
    + by right.
  - unfold timer_calibrate, timer_calibrate_fuel.
    destruct (decide _); [done|]. by left.
Qed.

(** X8.  With a measurement that has a sharp threshold ([loops] are too many
    exactly above [limit]) and interrupts on, [timer_calibrate] finds the
    threshold to ten bits when [1024 <= limit < 2^31]: the value [v] it
    stores is not above [limit] and short of it by less than [v / 512].
    Below 1024 it stores 1024, which is too many; from [2^31] on it finds no
    power of two that is too many before the shift wraps to zero, and
    panics. *)
Theorem timer_calibrate_threshold limit k :
  intr_get_level k = INTR_ON ->
  (1024 <= limit < 2 ^ 31 ->
     exists v,
       timer_calibrate (threshold limit) k = Some (Ok (with_loops_per_tick v k))
       /\ v <= limit /\ 512 * (limit - v) < v)
  /\ (limit < 1024 ->
        timer_calibrate (threshold limit) k
        = Some (Ok (with_loops_per_tick 1024 k)))
  /\ (2 ^ 31 <= limit ->
        timer_calibrate (threshold limit) k = Some Panic).
Proof.
  intros Hon.
  assert (forall j, 10 <= j <= 31 ->
            UInt32.wrap (2 ^ (j + 1)) = if j =? 31 then 0 else 2 ^ (j + 1))
    as Hwrap.
  { intros j Hj. destruct (Z.eqb_spec j 31) as [->|]; [done|].
    apply Z.mod_small. split; [apply Z.pow_nonneg; lia|].
    apply Z.pow_lt_mono_r; lia. }
  assert (forall j, 10 <= j <= 31 -> 2 ^ 10 <= 2 ^ j <= 2 ^ 31) as Hpow.
  { intros j Hj. split; apply Z.pow_le_mono_r; lia. }
  assert (forall j, 10 <= j <= 31 -> 2 ^ j = 512 * 2 ^ (j - 9)) as H512.
  { intros j Hj. change 512 with (2 ^ 9). rewrite <- Z.pow_add_r by lia.
    f_equal. lia. }
  assert (forall j, 10 <= j <= 31 -> 2 ^ (j + 1) = 2 * 2 ^ j) as Hdbl.
  { intros j Hj. replace (j + 1) with (Z.succ j) by lia.
    by rewrite Z.pow_succ_r by lia. }
  destruct (timer_calibrate_spec (threshold limit) k Hon)
    as [(j & v & Hj & Heq & Hb & Hdiv & Htop & Hbelow & Hm & Hlim)|[Heq Hnone]].
  - rewrite Hwrap in Htop by done. unfold threshold in Htop, Hbelow, Hm.
    specialize (Hpow j Hj). specialize (H512 j Hj). specialize (Hdbl j Hj).
    specialize (Hlim limit (fun _ => eq_refl)).
    change (2 ^ 10) with 1024 in *. change (2 ^ 31) with 2147483648 in *.
    destruct (Z.eqb_spec j 31) as [->|Hne].
    + (* the wrapped shift was too many: the limit is negative *)
      assert (limit < 0) as Hneg by lia.
      split_and!; [lia| |lia].
      intros _. rewrite Heq. do 3 f_equal.
      destruct Hm as [->|Hm]; [|lia].
      specialize (Hbelow 31). lia.
    + assert (limit < 2 ^ (j + 1)) as Hlt by lia.
      specialize (Hlim Hlt).
      assert (2 ^ (j + 1) <= 2147483648) as Hcap.
      { change 2147483648 with (2 ^ 31). apply Z.pow_le_mono_r; lia. }
      split_and!.
      * intros Hl. exists v. split; [done|].
        assert (2 ^ j <= limit) as Hge.
        { destruct (decide (j = 10)) as [->|]; [lia|].
          specialize (Hbelow j). lia. }
        split; [destruct Hm as [->|Hm]; lia|lia].
      * intros Hl. rewrite Heq. do 3 f_equal.
        assert (j = 10) as ->.
        { destruct (decide (j = 10)); [done|]. specialize (Hbelow j). lia. }
        destruct Hm as [->|Hm]; [done|lia].
      * intros Hl. lia.
  - unfold threshold in Hnone.
    split_and!; [| |done].
    + intros Hl. specialize (Hnone 31).
      change (UInt32.wrap (2 ^ 31)) with (2 ^ 31) in Hnone. lia.
    + intros Hl. specialize (Hnone 11).
      change (UInt32.wrap (2 ^ 11)) with 2048 in Hnone. lia.
Qed.

Lemma timer_calibrate_threshold_witness :
  let k := sample_kernel true in
  intr_get_level k = INTR_ON
  /\ 1024 <= 1234567 < 2 ^ 31
  /\ timer_calibrate (threshold 1234567) k
     = Some (Ok (with_loops_per_tick 1232896 k))
  /\ 1232896 <= 1234567 /\ 512 * (1234567 - 1232896) < 1232896
  /\ timer_calibrate (threshold 100) k = Some (Ok (with_loops_per_tick 1024 k))
  /\ timer_calibrate (threshold (2 ^ 31)) k = Some Panic.
Proof.
  intros k.
  assert (intr_get_level k = INTR_ON) as Hon by reflexivity.
  destruct (timer_calibrate_threshold 1234567 k Hon) as (H1 & _ & _).
  destruct (timer_calibrate_threshold 100 k Hon) as (_ & H2 & _).
  destruct (timer_calibrate_threshold (2 ^ 31) k Hon) as (_ & _ & H3).
  assert (1024 <= 1234567 < 2 ^ 31) as Hr by (by vm_compute).
  split; [exact Hon|]. split; [exact Hr|].
  split; [reflexivity|]. split; [lia|]. split; [lia|].
  split; [apply H2; lia|apply H3; lia].
Defined.

(** ** What an interrupt unblocks, and what the sleep list holds *)

Lemma NoDup_due_threads now l :
  NoDup (st_thread <$> l) -> NoDup (st_thread <$> due now l).
Proof.
  intros Hnd. eapply sublist_NoDup; [exact Hnd|].
  apply fmap_sublist, sublist_filter.
Qed.

(** X9.  In a well-formed state an interrupt makes every call at most once:
    [thread_tick] once, and [thread_unblock] at most once per thread.  And it
    unblocks only sleepers: a thread it calls [thread_unblock] on had an entry
    in the sleep list, was blocked and was not the running thread; after the
    interrupt it is ready and has no entry left. *)
Theorem timer_interrupt_unblocks_sleepers_once k :
  wf k ->
  let k' := timer_interrupt k in
  NoDup (new_calls k k')
  /\ forall t,
       CallThreadUnblock t ∈ new_calls k k' ->
       (t ∈ sleepers k)
       /\ thread_state t k = Some THREAD_BLOCKED
       /\ t ≠ current (threads k)
       /\ thread_state t k' = Some THREAD_READY
       /\ (t ∉ sleepers k').
Proof.
  intros Hwf k'. subst k'.
  pose proof (wf_NoDup_sleepers _ Hwf) as Hnd.
  rewrite (new_calls_app _ _ _ (calls_timer_interrupt k)). split.
  - apply NoDup_cons. split.
    + intros Hin. by apply list_elem_of_fmap in Hin as (? & ? & _).
    + rewrite list_fmap_compose. apply NoDup_fmap_2.
      * by intros ?? [=].
      * by apply NoDup_due_threads.
  - intros t Hin. apply elem_of_cons in Hin as [|Hin]; [done|].
    apply list_elem_of_fmap in Hin as (st & Heq & Hdue).
    simpl in Heq. simplify_eq.
    apply list_elem_of_filter in Hdue as [Hexp Hst].
    assert (st_thread st ∈ sleepers k) as Hs
      by (unfold sleepers; by apply list_elem_of_fmap_2).
    destruct (due_sleeper_wakes k st Hwf Hst Hexp) as (Hout & _ & Hrd & _).
    split_and!; [done|by apply sleeper_blocked| |done|].
    + destruct Hwf as [(_ & _ & Hcur & _) _]. intros Heq. apply Hcur.
      by rewrite <- Heq.
    + unfold sleepers. rewrite sleep_list_timer_interrupt.
      intros Hin. apply list_elem_of_fmap in Hin as (st' & Heq & Hin).
      apply list_elem_of_filter in Hin as [Hnot Hin].
      assert (st = st') as <- by by eapply (NoDup_fmap_eq st_thread).
      done.
Qed.

Lemma timer_interrupt_unblocks_sleepers_once_witness :
  let k := three_sleepers in
  let k' := timer_interrupt k in
  wf k
  /\ NoDup (new_calls k k')
  /\ (CallThreadUnblock 3%nat ∈ new_calls k k')
  /\ (3%nat ∈ sleepers k)
  /\ thread_state 3%nat k = Some THREAD_BLOCKED
  /\ 3%nat ≠ current (threads k)
  /\ thread_state 3%nat k' = Some THREAD_READY
  /\ (3%nat ∉ sleepers k').
Proof.
  intros k k'.
  destruct (timer_interrupt_unblocks_sleepers_once k wf_three_sleepers)
    as [Hnd Hun].
  assert (CallThreadUnblock 3%nat ∈ new_calls k k') as Hin by compute_done.
  split; [exact wf_three_sleepers|]. split; [exact Hnd|].
  split; [exact Hin|]. exact (Hun 3%nat Hin).
Defined.

(** X10.  From [timer_init] on, through every run of interrupts, calls of
    [timer_sleep] and yields, the sleep list holds at most one entry per
    thread, and every thread in it is blocked, is not the running thread and
    is in no ready queue.  The scheduler state at [timer_init] is well formed
    with nobody asleep. *)
Theorem sleep_list_stays_consistent k k' :
  sched_wf [] (threads k) ->
  rtc step (timer_init k) k' ->
  NoDup (sleepers k')
  /\ forall t,
       t ∈ sleepers k' ->
       thread_state t k' = Some THREAD_BLOCKED
       /\ t ≠ current (threads k')
       /\ (t ∉ ready_threads (threads k')).
Proof.
  intros Hsc Hrun.
  assert (wf (timer_init k)) as Hwf0 by (split; [done|constructor]).
  pose proof (wf_steps _ _ Hrun Hwf0) as [((Hnd & Hzs & _) & _ & Hcur & _) _].
  split; [done|]. intros t Ht. rewrite Forall_forall in Hzs.
  destruct (Hzs t Ht) as (? & _ & ?). split_and!; [done| |done].
  intros Heq. apply Hcur. by rewrite <- Heq.
Qed.

Lemma sleep_list_stays_consistent_witness :
  let k := sample_kernel true in
  let k' := Nat.iter 2 timer_interrupt (asleep_for 4 (timer_init k)) in
  sched_wf [] (threads k)
  /\ rtc step (timer_init k) k'
  /\ sleepers k' = [1%nat]
  /\ NoDup (sleepers k')
  /\ forall t,
       t ∈ sleepers k' ->
       thread_state t k' = Some THREAD_BLOCKED
       /\ t ≠ current (threads k')
       /\ (t ∉ ready_threads (threads k')).
Proof.
  intros k k'.
  assert (sched_wf [] (threads k)) as H1 by apply (wf_sample_kernel true).
  assert (rtc step (timer_init k) k') as H2.
  { eapply rtc_l; [|apply steps_ticks].
    apply (step_sleep (timer_init k) 4); by vm_compute. }
  split; [exact H1|]. split; [exact H2|]. split; [reflexivity|].
  exact (sleep_list_stays_consistent k k' H1 H2).
Defined.

(** X11.  Under MLFQ, a thread that an interrupt wakes leaves the interrupt
    with exactly the [mlfq_priority] and [ticks_at_priority] saved in its
    entry, whatever the two fields held just before, a boost by [thread_tick]
    in the same interrupt included; and it is queued ready. *)
Theorem wake_sets_saved_mlfq_state k st p n :
  wf k ->
  thread_mlfqs (threads k) = true ->
  st ∈ sleep_list k ->
  wake_tick st <= ticks (timer_interrupt k) ->
  saved_mlfq_priority st = Some p ->
  saved_ticks_at_priority st = Some n ->
  mlfq_state (st_thread st) (timer_interrupt k) = Some (p, n)
  /\ thread_state (st_thread st) (timer_interrupt k) = Some THREAD_READY
  /\ (st_thread st ∈ ready_threads (threads (timer_interrupt k))).
Proof.
  intros Hwf Hm Hin Hdue Hp Hn.
  destruct (due_sleeper_wakes k st Hwf Hin Hdue) as (_ & _ & Hrd & Hq).
  split_and!; [|done|done]. by apply wake_restores_snapshot.
Qed.

(** Thread 1 sleeps at level 4 until tick 50, the tick of the boost: the
    interrupt of tick 50 boosts it and then puts it back to level 4. *)
Lemma wake_sets_saved_mlfq_state_witness :
  let k := with_ticks 49 (with_sched (with_boost 49 (threads three_sleepers))
                                     three_sleepers) in
  let st := mk_sleeping 1%nat 6 (Some 4) (Some 0) in
  wf k
  /\ thread_mlfqs (threads k) = true
  /\ (st ∈ sleep_list k)
  /\ wake_tick st <= ticks (timer_interrupt k)
  /\ mlfq_state 2%nat (timer_interrupt k) = Some (19, 0)
  /\ boost_ticks (threads (timer_interrupt k)) = 0
  /\ mlfq_state 1%nat (timer_interrupt k) = Some (4, 0)
  /\ thread_state 1%nat (timer_interrupt k) = Some THREAD_READY
  /\ (1%nat ∈ ready_threads (threads (timer_interrupt k))).
Proof.
  intros k st.
  assert (wf k) as H1 by apply wf_three_sleepers.
  assert (thread_mlfqs (threads k) = true) as H2 by reflexivity.
  assert (st ∈ sleep_list k) as H3 by compute_done.
  assert (wake_tick st <= ticks (timer_interrupt k)) as H4 by (by vm_compute).
  do 4 (split; [assumption|]). do 2 (split; [by vm_compute|]).
  exact (wake_sets_saved_mlfq_state k st 4 0 H1 H2 H3 H4 eq_refl eq_refl).
Defined.

(** * [timer_sleep] under interrupts *)

(** ** The idle thread stays the idle thread *)

Lemma idle_thread_thread_tick sc :
  idle_thread (thread_tick sc) = idle_thread sc.
Proof.
  unfold thread_tick. destruct (thread_mlfqs sc); [|done].
  destruct (decide _), (_ <=? _); done.
Qed.

Lemma idle_thread_restore st k :
  idle_thread (threads (restore st k)) = idle_thread (threads k).
Proof.
  unfold restore. by destruct (saved_mlfq_priority st), (saved_ticks_at_priority st).
Qed.

Lemma idle_thread_wake st rest k :
  idle_thread (threads (wake st rest k)) = idle_thread (threads k).
Proof.
  rewrite threads_wake. unfold thread_unblock. rewrite idle_thread_enqueue.
  destruct (thread_mlfqs _); [|done]. apply idle_thread_restore.
Qed.

Lemma idle_thread_wake_loop before after k :
  idle_thread (threads (wake_loop before after k)) = idle_thread (threads k).
Proof.
  revert before k. induction after as [|st after IH]; intros before k; [done|].
  rewrite wake_loop_unfold.
  destruct (decide _); rewrite IH; [apply idle_thread_wake|done].
Qed.

Lemma idle_thread_timer_interrupt k :
  idle_thread (threads (timer_interrupt k)) = idle_thread (threads k).
Proof.
  unfold timer_interrupt. rewrite idle_thread_wake_loop. simpl.
  apply idle_thread_thread_tick.
Qed.

Lemma idle_thread_schedule sc : idle_thread (schedule sc) = idle_thread sc.
Proof.
  unfold schedule. destruct (next_thread_to_run sc) as [t sc1] eqn:E. simpl.
  by apply idle_thread_next in E.
Qed.

Lemma idle_thread_thread_block sc :
  idle_thread (thread_block sc) = idle_thread sc.
Proof. unfold thread_block. by rewrite idle_thread_schedule. Qed.

Lemma idle_thread_thread_yield sc :
  idle_thread (thread_yield sc) = idle_thread sc.
Proof.
  unfold thread_yield. rewrite idle_thread_schedule.
  destruct (decide _); [done|]. by rewrite idle_thread_enqueue.
Qed.

(** ** The lines of [timer_sleep] *)

Lemma timer_sleep_enter_unfold d k :
  timer_sleep_enter d k =
    if decide (intr_get_level k = INTR_ON) then
      if d <=? 0 then Returned k
      else Sleeping k (mk_frame Line159
                         (mk_sleeping (current (threads k))
                                      (Int64.add (ticks k) d) None None))
    else Failed.
Proof. unfold timer_sleep_enter. by rewrite timer_ticks_spec. Qed.

Lemma timer_sleep_enter_Sleeping d k k' f :
  timer_sleep_enter d k = Sleeping k' f ->
  intr_get_level k = INTR_ON /\ 0 < d /\ k' = k
  /\ f = mk_frame Line159
           (mk_sleeping (current (threads k)) (Int64.add (ticks k) d) None None).
Proof.
  rewrite timer_sleep_enter_unfold. destruct (decide _); [|done].
  destruct (Z.leb_spec d 0); [done|]. intros [= <- <-]. auto.
Qed.

Lemma timer_sleep_enter_Returned d k k' :
  timer_sleep_enter d k = Returned k' ->
  intr_get_level k = INTR_ON /\ d <= 0 /\ k' = k.
Proof.
  rewrite timer_sleep_enter_unfold. destruct (decide _); [|done].
  destruct (Z.leb_spec d 0); [|done]. intros [= <-]. auto.
Qed.

(** Only lines 167 to 169 change the kernel, and no line changes the thread
    or the deadline of the local entry. *)
Lemma timer_sleep_line_Some f k k' f' :
  timer_sleep_line f k = (k', Some f') ->
  k' = k
  /\ st_thread (local_st f') = st_thread (local_st f)
  /\ wake_tick (local_st f') = wake_tick (local_st f).
Proof.
  unfold timer_sleep_line. destruct (next_line f); intros [= <- <-]; auto.
Qed.

Lemma timer_sleep_line_None f k k' :
  timer_sleep_line f k = (k', None) ->
  next_line f = Line167
  /\ k' = k_thread_block (list_push_back (local_st f) (with_intr_level INTR_OFF k)).
Proof.
  unfold timer_sleep_line. destruct (next_line f); intros [=]; auto.
Qed.

Lemma snapshot_ok_line f k k' f' :
  map_Forall (λ _ th, level_ok (mlfq_priority th)) (all_threads (threads k)) ->
  timer_sleep_line f k = (k', Some f') ->
  snapshot_ok (local_st f) -> snapshot_ok (local_st f').
Proof.
  intros Hprio. unfold timer_sleep_line, snapshot_ok, thread_field.
  destruct (next_line f); intros [= <- <-]; simpl; try done.
  intros _. destruct (_ !! _) as [th|] eqn:E; [|done]. simpl. by eapply Hprio.
Qed.

(** With no interrupt in between, the lines of [timer_sleep] amount to
    [timer_sleep]: the atomic call is one run of the machine. *)
Lemma timer_sleep_uninterrupted d k fs :
  intr_get_level k = INTR_ON -> 0 < d ->
  current (threads k) ≠ idle_thread (threads k) ->
  fs !! current (threads k) = None ->
  perform_all (Sleep d :: if thread_mlfqs (threads k)
                           then [Line; Line; Line; Line] else [Line; Line])
              (mk_machine k fs)
  = Some (mk_machine (asleep_for d k) fs).
Proof.
  intros Hon Hd Hidle Hfs.
  unfold asleep_for. rewrite timer_sleep_positive by done.
  cbn [perform_all perform kern frames].
  rewrite decide_False by done. rewrite Hfs, timer_sleep_enter_unfold.
  rewrite decide_True by done. rewrite (proj2 (Z.leb_gt d 0)) by done.
  unfold sleep_entry, k_thread_current, thread_current.
  destruct (thread_mlfqs (threads k)) eqn:Hm;
    cbn [perform_all perform kern frames];
    repeat (rewrite lookup_insert_eq;
            cbn [timer_sleep_line next_line local_st intr_disable
                 perform_all perform kern frames st_thread wake_tick
                 saved_mlfq_priority saved_ticks_at_priority];
            rewrite ?Hm, ?insert_insert_eq);
    by rewrite delete_insert_id.
Qed.

(** What the scheduler can do next is a step of the machine. *)
Lemma perform_mstep a m m' : perform a m = Some m' -> mstep m m'.
Proof.
  destruct a as [| |d|]; simpl.
  - intros [= <-]. constructor.
  - intros [= <-]. constructor.
  - destruct (decide _) as [|Hidle]; [done|].
    destruct (frames m !! _) eqn:Hf; [done|].
    destruct (timer_sleep_enter d (kern m)) as [k|k f|] eqn:E; [| |done];
      intros [= <-]; [by eapply mstep_return|by eapply mstep_enter].
  - destruct (frames m !! _) as [f|] eqn:Hf; [|done].
    destruct (timer_sleep_line f (kern m)) as [k [f'|]] eqn:E; intros [= <-];
      [by eapply mstep_line|by eapply mstep_block].
Qed.

Lemma perform_all_msteps l m m' : perform_all l m = Some m' -> rtc mstep m m'.
Proof.
  revert m. induction l as [|a l IH]; intros m; simpl.
  - by intros [= <-].
  - destruct (perform a m) as [m1|] eqn:E; [|done]. intros H.
    eapply rtc_l; [by eapply perform_mstep|by apply IH].
Qed.

Lemma perform_within_window t l m m' :
  perform_within t l m = Some m' -> rtc (in_window t) m m'.
Proof.
  revert m. induction l as [|a l IH]; intros m; simpl.
  - by intros [= <-].
  - destruct (perform a m) as [m1|] eqn:E; [|done].
    destruct (decide _) as [Hsome|]; [|done]. intros H.
    eapply rtc_l; [|by apply IH]. split; [by eapply perform_mstep|done].
Qed.

(** Every run of the atomic steps is a run of the machine. *)
Lemma step_msteps k k' fs :
  step k k' -> fs !! current (threads k) = None ->
  rtc mstep (mk_machine k fs) (mk_machine k' fs).
Proof.
  intros Hstep Hfs. destruct Hstep as [k|k d k' Hidle Hk'|k].
  - apply rtc_once, (mstep_tick (mk_machine k fs)).
  - destruct (decide (intr_get_level k = INTR_ON)) as [Hon|Hoff];
      [|by rewrite timer_sleep_panic in Hk'].
    destruct (Z.leb_spec d 0) as [Hd|Hd].
    + rewrite timer_sleep_unfold, (proj2 (Z.leb_le d 0)) in Hk' by done.
      simplify_eq.
      replace (dispatched k') with k'; [done|].
      unfold dispatched, timer_sleep_resume, intr_set_level, with_intr_level.
      unfold intr_get_level in Hon. rewrite <- Hon. by rewrite kernel_eta.
    + replace (dispatched k') with (asleep_for d k)
        by (unfold asleep_for; by rewrite Hk').
      eapply perform_all_msteps. by apply timer_sleep_uninterrupted.
  - apply rtc_once, (mstep_yield (mk_machine k fs)).
Qed.

(** ** The machine keeps its states well formed *)

Lemma frame_ok_transfer k k' t f :
  idle_thread (threads k') = idle_thread (threads k) ->
  frame_ok k t f -> frame_ok k' t f.
Proof. unfold frame_ok. by intros ->. Qed.

Lemma frames_ok_transfer k k' (fs : gmap tid sleep_frame) :
  idle_thread (threads k') = idle_thread (threads k) ->
  map_Forall (frame_ok k) fs -> map_Forall (frame_ok k') fs.
Proof.
  intros Hidle Hfs t f Hf. eapply frame_ok_transfer; [done|]. by apply Hfs.
Qed.

(** Lines 167 to 169 with any well-formed local entry of the running
    thread. *)
Lemma wf_block st k :
  st_thread st = current (threads k) ->
  current (threads k) ≠ idle_thread (threads k) ->
  snapshot_ok st ->
  wf k ->
  wf (k_thread_block (list_push_back st (with_intr_level INTR_OFF k))).
Proof.
  intros Hst Hidle Hok [Hsc Hsn]. unfold wf, sleepers. simpl. split.
  - rewrite fmap_app. simpl. rewrite Hst. by apply sched_wf_thread_block.
  - apply Forall_app. split; [done|]. by apply Forall_singleton.
Qed.

Lemma mwf_mstep m m' : mstep m m' -> mwf m -> mwf m'.
Proof.
  intros Hstep [Hwf Hfs]. destruct Hstep as [m|m|m d k Hidle Hnone He
                                            |m d k f Hidle Hnone He
                                            |m f k f' Hf Hl|m f k Hf Hl].
  - split; [by apply wf_timer_interrupt|].
    eapply frames_ok_transfer; [|done]. apply idle_thread_timer_interrupt.
  - split.
    + destruct Hwf as [Hsc Hsn]. split; [|done]. by apply sched_wf_thread_yield.
    + eapply frames_ok_transfer; [|done]. apply idle_thread_thread_yield.
  - apply timer_sleep_enter_Returned in He as (_ & _ & ->). by split.
  - apply timer_sleep_enter_Sleeping in He as (_ & _ & -> & ->).
    split; [done|]. by apply map_Forall_insert_2.
  - pose proof (Hfs _ _ Hf) as (Hst & Hidle & Hok).
    pose proof (timer_sleep_line_Some _ _ _ _ Hl) as (-> & Hst' & _).
    split; [done|]. apply map_Forall_insert_2; [|done].
    split_and!; [congruence|done|].
    eapply snapshot_ok_line; [|done..].
    by destruct Hwf as [((_ & _ & _ & _ & _ & _ & ?) & _) _].
  - pose proof (Hfs _ _ Hf) as (Hst & Hidle & Hok).
    apply timer_sleep_line_None in Hl as [_ ->]. split.
    + by apply wf_dispatched, wf_block.
    + apply map_Forall_delete.
      eapply frames_ok_transfer; [|done]. apply idle_thread_thread_block.
Qed.

Lemma mwf_msteps m m' : rtc mstep m m' -> mwf m -> mwf m'.
Proof. induction 1; eauto using mwf_mstep. Qed.

(** ** The window between line 143 and line 167 *)

(** While a thread stays inside [timer_sleep], its frame is that of the same
    call: the thread and the deadline of the local entry do not change. *)
Lemma window_frame t m m' f :
  rtc (in_window t) m m' ->
  frames m !! t = Some f ->
  exists f',
    frames m' !! t = Some f'
    /\ st_thread (local_st f') = st_thread (local_st f)
    /\ wake_tick (local_st f') = wake_tick (local_st f).
Proof.
  intros Hrun. revert f.
  induction Hrun as [m|m m1 m' [Hstep Hsome] Hrun IH]; intros f Hf; [eauto|].
  assert (exists f1, frames m1 !! t = Some f1
                     /\ st_thread (local_st f1) = st_thread (local_st f)
                     /\ wake_tick (local_st f1) = wake_tick (local_st f))
    as (f1 & Hf1 & Hst1 & Hwk1).
  { destruct Hstep as [m|m|m d k Hidle Hnone He|m d k f0 Hidle Hnone He
                       |m f0 k f0' Hf0 Hl|m f0 k Hf0 Hl]; simpl in *; eauto.
    - destruct (decide (current (threads (kern m)) = t)) as [<-|Hne];
        [congruence|].
      rewrite lookup_insert_ne by done. eauto.
    - destruct (decide (current (threads (kern m)) = t)) as [<-|Hne].
      + rewrite lookup_insert_eq. simplify_eq.
        apply timer_sleep_line_Some in Hl as (_ & ? & ?). eauto.
      + rewrite lookup_insert_ne by done. eauto.
    - destruct (decide (current (threads (kern m)) = t)) as [<-|Hne].
      + rewrite lookup_delete_eq in Hsome. by destruct Hsome.
      + rewrite lookup_delete_ne by done. eauto. }
  destruct (IH f1 Hf1) as (f' & ? & ? & ?). exists f'. split_and!; congruence.
Qed.

Lemma in_window_msteps t m m' : rtc (in_window t) m m' -> rtc mstep m m'.
Proof. induction 1 as [|m m1 m' [Hstep _] _ IH]; [done|]. by eapply rtc_l. Qed.

(** ** From the block to the wake-up *)

(** An entry sleeps on as long as the interrupts leave the tick count short
    of its deadline. *)
Lemma entry_sleeps_on k e i :
  wf k -> e ∈ sleep_list k ->
  Int64.min <= ticks k -> ticks k + Z.of_nat i <= Int64.max ->
  (i = 0%nat \/ ticks k + Z.of_nat i < wake_tick e) ->
  let ki := Nat.iter i timer_interrupt k in
  (e ∈ sleep_list ki) /\ ticks ki = ticks k + Z.of_nat i.
Proof.
  intros Hwf Hin Hmin Hmax Hi. induction i as [|i IH]; simpl.
  - split; [done|lia].
  - destruct IH as [Hin' Ht]; [lia|right; lia|].
    assert (ticks (timer_interrupt (Nat.iter i timer_interrupt k))
            = ticks k + Z.of_nat (S i)) as Ht'.
    { rewrite ticks_timer_interrupt, Ht. unfold Int64.add.
      rewrite Int64_wrap_in_range; [lia|]. unfold Int64.in_range. lia. }
    split; [|done].
    apply pending_sleeper_sleeps_on; [by apply wf_iter_interrupt|done|].
    rewrite Ht'. lia.
Qed.

(** X2.  How long [timer_sleep (n)] sleeps, with the interrupts and
    preemptions that may come before it has disabled interrupts.  A thread
    calls [timer_sleep (n)], [n > 0], at tick [start >= 0] with
    [start + n] fitting [int64_t]; the machine then runs in any way
    (interrupts, preemptions, other threads, the caller's own lines) until
    the caller stands at line 167 at tick [now], [start <= now < INT64_MAX];
    [late = now - start] ticks have passed in that window.  The entry it then
    files has [wake_tick = start + n], whatever [late] is.  Counting the
    interrupts that follow the block: the thread stays blocked with its entry
    in the sleep list through the first [rest - 1] of them, and interrupt
    number [rest] removes the entry and makes the thread ready, where
    [rest = n - late] if that is positive and [rest = 1] otherwise.  So
    [timer_elapsed (start)] at the wake-up is [n] when fewer than [n] ticks
    passed in the window and [late + 1] otherwise: never less than [n], and
    more than [n] exactly when the caller was held up for [n] ticks or more
    before line 167. *)
Theorem timer_sleep_wakes_on_time m0 n k1 f1 m2 f2 k3 :
  let k0 := kern m0 in
  let t := current (threads k0) in
  mwf m0 ->
  t ≠ idle_thread (threads k0) ->
  frames m0 !! t = None ->
  timer_sleep_enter n k0 = Sleeping k1 f1 ->
  rtc (in_window t) (mk_machine k1 (<[t := f1]> (frames m0))) m2 ->
  current (threads (kern m2)) = t ->
  frames m2 !! t = Some f2 ->
  timer_sleep_line f2 (kern m2) = (k3, None) ->
  0 <= ticks k0 ->
  ticks k0 + n <= Int64.max ->
  ticks k0 <= ticks (kern m2) < Int64.max ->
  let e := local_st f2 in
  let late := ticks (kern m2) - ticks k0 in
  let rest := Z.to_nat (Z.max 1 (n - late)) in
  let after (i : nat) := Nat.iter i timer_interrupt (dispatched k3) in
  st_thread e = t
  /\ wake_tick e = ticks k0 + n
  /\ (forall i, (i < rest)%nat ->
        (e ∈ sleep_list (after i))
        /\ thread_state t (after i) = Some THREAD_BLOCKED)
  /\ (e ∉ sleep_list (after rest))
  /\ thread_state t (after rest) = Some THREAD_READY
  /\ (t ∈ ready_threads (threads (after rest)))
  /\ fst (timer_elapsed (ticks k0) (after rest)) = Z.max n (late + 1).
Proof.
  intros k0 t Hwf0 Hidle Hnone Henter Hrun Hcur Hf2 Hblock Hpos Hmax Hnow
         e late rest after.
  pose proof (timer_sleep_enter_Sleeping _ _ _ _ Henter) as (_ & Hn & -> & Hf1).
  assert (mwf m2) as [Hwf2 Hfs2].
  { eapply mwf_msteps; [by eapply in_window_msteps|].
    eapply mwf_mstep; [|exact Hwf0]. by eapply (mstep_enter m0). }
  destruct (window_frame _ _ _ f1 Hrun) as (f2' & Hf2' & Hst & Hwk).
  { simpl. apply lookup_insert_eq. }
  assert (f2' = f2) as -> by congruence.
  rewrite Hf1 in Hst, Hwk. simpl in Hst, Hwk. fold t in Hst. fold e in Hst, Hwk.
  assert (wake_tick e = ticks k0 + n) as Hwk'.
  { rewrite Hwk. apply Int64_wrap_in_range.
    unfold Int64.in_range, Int64.min. lia. }
  destruct (Hfs2 _ _ Hf2) as (_ & Hidle2 & Hok).
  apply timer_sleep_line_None in Hblock as [_ ->].
  assert (wf (after 0%nat)) as Hwf3.
  { apply wf_dispatched, wf_block; [|by rewrite Hcur|done|done].
    rewrite Hcur. exact Hst. }
  assert (e ∈ sleep_list (after 0%nat)) as Hin0.
  { simpl. apply elem_of_app. right. by left. }
  assert (ticks (after 0%nat) = ticks (kern m2)) as Ht0 by done.
  assert (forall i, wf (after i)) as Hwfi
    by (intros i; by apply wf_iter_interrupt).
  assert (forall i, (i < rest)%nat ->
            (e ∈ sleep_list (after i))
            /\ ticks (after i) = ticks (kern m2) + Z.of_nat i) as Hsleeps.
  { intros i Hi. rewrite <- Ht0.
    apply (entry_sleeps_on (after 0%nat) e i); rewrite ?Ht0; try done.
    - unfold Int64.min. lia.
    - lia.
    - destruct i; [by left|right]. lia. }
  split; [done|]. split; [done|]. split.
  { intros i Hi. destruct (Hsleeps i Hi) as [Hin _]. split; [done|].
    rewrite <- Hst. by apply sleeper_blocked. }
  assert (exists j, rest = S j) as [j Hj] by (exists (pred rest); lia).
  destruct (Hsleeps j) as [Hin Ht]; [lia|].
  assert (ticks (after rest) = ticks (kern m2) + Z.of_nat rest) as Ht'.
  { rewrite Hj. subst after. cbn beta. rewrite Nat.iter_succ.
    rewrite ticks_timer_interrupt, Ht. unfold Int64.add.
    rewrite Int64_wrap_in_range; [lia|].
    unfold Int64.in_range, Int64.min. lia. }
  destruct (due_sleeper_wakes (after j) e) as (Hout & _ & Hrd & Hq);
    [done|done| |].
  { unfold expired. change (timer_interrupt (after j)) with (after (S j)).
    rewrite <- Hj, Ht', Hwk'. lia. }
  change (timer_interrupt (after j)) with (after (S j)) in *.
  rewrite <- Hj, ?Hst in *.
  split_and!; [done..|].
  unfold timer_elapsed. rewrite timer_ticks_spec. cbn [fst].
  rewrite Ht'. unfold Int64_sub.
  rewrite Int64_wrap_in_range; [lia|].
  unfold Int64.in_range, Int64.min, Int64.max in *. lia.
Qed.

(** Thread 1 calls [timer_sleep (4)] at tick 5 and an interrupt comes
    between its lines 159 and 161: the entry is due at tick 9, and the third
    interrupt after the block wakes the thread, four ticks after the call. *)
Lemma timer_sleep_wakes_on_time_witness :
  let m0 := mk_machine (sample_kernel true) ∅ in
  let f1 := mk_frame Line159 (mk_sleeping 1%nat 9 None None) in
  let m1 := mk_machine (sample_kernel true) (<[1%nat := f1]> ∅) in
  let m2 := default m1 (perform_within 1%nat [Line; Tick; Line; Line] m1) in
  let f2 := mk_frame Line167 (mk_sleeping 1%nat 9 (Some 0) (Some 4)) in
  let k3 := fst (timer_sleep_line f2 (kern m2)) in
  let after (i : nat) := Nat.iter i timer_interrupt (dispatched k3) in
  mwf m0
  /\ timer_sleep_enter 4 (kern m0) = Sleeping (kern m1) f1
  /\ perform_within 1%nat [Line; Tick; Line; Line] m1 = Some m2
  /\ frames m2 !! 1%nat = Some f2
  /\ timer_sleep_line f2 (kern m2) = (k3, None)
  /\ ticks (kern m2) = 6
  /\ ((local_st f2 ∈ sleep_list (after 2%nat))
      /\ thread_state 1%nat (after 2%nat) = Some THREAD_BLOCKED)
  /\ (local_st f2 ∉ sleep_list (after 3%nat))
  /\ thread_state 1%nat (after 3%nat) = Some THREAD_READY
  /\ (1%nat ∈ ready_threads (threads (after 3%nat)))
  /\ fst (timer_elapsed 5 (after 3%nat)) = 4.
Proof.
  intros m0 f1 m1 m2 f2 k3 after.
  assert (mwf m0) as H1.
  { split; [apply (wf_sample_kernel true)|]. apply map_Forall_empty. }
  assert (current (threads (kern m0)) ≠ idle_thread (threads (kern m0))) as H2
    by (by vm_compute).
  assert (frames m0 !! current (threads (kern m0)) = None) as H3 by reflexivity.
  assert (timer_sleep_enter 4 (kern m0) = Sleeping (kern m1) f1) as H4
    by reflexivity.
  assert (perform_within 1%nat [Line; Tick; Line; Line] m1 = Some m2) as E2
    by (by vm_compute).
  assert (rtc (in_window (current (threads (kern m0))))
              (mk_machine (kern m1)
                          (<[current (threads (kern m0)) := f1]> (frames m0))) m2)
    as H5 by exact (perform_within_window 1%nat _ m1 m2 E2).
  assert (current (threads (kern m2)) = current (threads (kern m0))) as H6
    by (by vm_compute).
  assert (frames m2 !! current (threads (kern m0)) = Some f2) as H7
    by (by vm_compute).
  assert (timer_sleep_line f2 (kern m2) = (k3, None)) as H8 by reflexivity.
  assert (ticks (kern m2) = 6) as Ht by (by vm_compute).
  assert (0 <= ticks (kern m0)) as H9 by (by vm_compute).
  assert (ticks (kern m0) + 4 <= Int64.max) as H10 by (by vm_compute).
  assert (ticks (kern m0) <= ticks (kern m2) < Int64.max) as H11
    by (by vm_compute).
  destruct (timer_sleep_wakes_on_time m0 4 (kern m1) f1 m2 f2 k3
              H1 H2 H3 H4 H5 H6 H7 H8 H9 H10 H11)
    as (_ & _ & Hbefore & Hrest).
  do 6 (split; [assumption|]).
  split; [apply (Hbefore 2%nat); by vm_compute|exact Hrest].
Defined.

(** The same call held up for five ticks before line 161: thread 1 is
    preempted after the first interrupt, thread 2 runs for four more ticks
    and then sleeps itself.  The entry of thread 1, due at tick 9, is filed
    at tick 10; the first interrupt after the block wakes the thread, and
    six ticks have passed since the call. *)
Example timer_sleep_held_up :
  let m0 := mk_machine (sample_kernel true) ∅ in
  let m1 := default m0 (perform (Sleep 4) m0) in
  let window := [Line; Tick; Yield; Tick; Tick; Tick; Tick;
                 Sleep 100; Line; Line; Line; Line; Line; Line] in
  let m2 := default m0 (perform_within 1%nat window m1) in
  let m3 := default m0 (perform Line m2) in
  is_Some (perform_within 1%nat window m1)
  /\ ticks (kern m2) = 10
  /\ current (threads (kern m2)) = 1%nat
  /\ is_Some (perform Line m2)
  /\ sleep_list (kern m3) = [mk_sleeping 2%nat 110 (Some 7) (Some 5);
                             mk_sleeping 1%nat 9 (Some 0) (Some 4)]
  /\ thread_state 1%nat (kern m3) = Some THREAD_BLOCKED
  /\ sleep_list (timer_interrupt (kern m3))
     = [mk_sleeping 2%nat 110 (Some 7) (Some 5)]
  /\ thread_state 1%nat (timer_interrupt (kern m3)) = Some THREAD_READY
  /\ fst (timer_elapsed 5 (timer_interrupt (kern m3))) = 6.
Proof.
  split; [vm_compute; by eexists|]. do 2 (split; [by vm_compute|]).
  split; [vm_compute; by eexists|]. by vm_compute.
Qed.

(** ** The snapshot under interrupts *)

Lemma wf_quantum_nearly_used : wf quantum_nearly_used.
Proof. unfold wf, sched_wf, sched_pre; split_and!; compute_done. Qed.

(** C2 asks that a thread which sleeps and is woken with no boost in between
    resumes with the [mlfq_priority] and [ticks_at_priority] it had.
    [timer_sleep] reads the two fields at lines 161 and 162 with interrupts
    on, and excludes the timer interrupt from line 167 only.  Thread 1, at
    level 18 (quantum 2) with 1 tick used, calls [timer_sleep (3)] at tick
    5; the boost counter stands at 5 and no boost comes before tick 50.
    - With no interrupt before line 167, the entry holds 18 and 1, and the
      interrupt of tick 8 wakes the thread at level 18 with 1 tick used.
    - With an interrupt between line 161 and line 162, [thread_tick] ends the
      quantum of the thread and moves it to level 17 with 0 ticks used; line
      162 then reads 0.  The entry holds 18 and 0, the thread blocks at level
      17 with 0 ticks used, and the interrupt of tick 8 wakes it at level 18
      with 0 ticks used: neither what it had at the call nor what it had
      when it blocked.
    - With the interrupt between line 162 and line 167, the entry holds 18
      and 1, the thread blocks at level 17 with 0 ticks used, and wakes at
      level 18 with 1 tick used.
    In each run the boost counter only counts up, to 8: there is no boost. *)
Theorem snapshot_torn_by_interrupt :
  let m0 := mk_machine quantum_nearly_used ∅ in
  let run (script : list action) := default m0 (perform_all script m0) in
  let calm := [Sleep 3; Line; Line; Line; Line] in
  let torn := [Sleep 3; Line; Line; Tick; Line; Line] in
  let stale := [Sleep 3; Line; Line; Line; Tick; Line] in
  mwf m0
  /\ mlfq_state 1%nat (kern m0) = Some (18, 1)
  /\ (is_Some (perform_all (calm ++ [Tick; Tick; Tick]) m0)
      /\ sleep_list (kern (run calm)) = [mk_sleeping 1%nat 8 (Some 18) (Some 1)]
      /\ mlfq_state 1%nat (kern (run calm)) = Some (18, 1)
      /\ ticks (kern (run (calm ++ [Tick; Tick; Tick]))) = 8
      /\ boost_ticks (threads (kern (run (calm ++ [Tick; Tick; Tick])))) = 8
      /\ thread_state 1%nat (kern (run (calm ++ [Tick; Tick; Tick])))
         = Some THREAD_READY
      /\ mlfq_state 1%nat (kern (run (calm ++ [Tick; Tick; Tick])))
         = Some (18, 1))
  /\ (is_Some (perform_all (torn ++ [Tick; Tick]) m0)
      /\ sleep_list (kern (run torn)) = [mk_sleeping 1%nat 8 (Some 18) (Some 0)]
      /\ thread_state 1%nat (kern (run torn)) = Some THREAD_BLOCKED
      /\ mlfq_state 1%nat (kern (run torn)) = Some (17, 0)
      /\ ticks (kern (run (torn ++ [Tick; Tick]))) = 8
      /\ boost_ticks (threads (kern (run (torn ++ [Tick; Tick])))) = 8
      /\ sleep_list (kern (run (torn ++ [Tick; Tick]))) = []
      /\ thread_state 1%nat (kern (run (torn ++ [Tick; Tick])))
         = Some THREAD_READY
      /\ mlfq_state 1%nat (kern (run (torn ++ [Tick; Tick]))) = Some (18, 0))
  /\ (is_Some (perform_all (stale ++ [Tick; Tick]) m0)
      /\ sleep_list (kern (run stale)) = [mk_sleeping 1%nat 8 (Some 18) (Some 1)]
      /\ mlfq_state 1%nat (kern (run stale)) = Some (17, 0)
      /\ ticks (kern (run (stale ++ [Tick; Tick]))) = 8
      /\ boost_ticks (threads (kern (run (stale ++ [Tick; Tick])))) = 8
      /\ thread_state 1%nat (kern (run (stale ++ [Tick; Tick])))
         = Some THREAD_READY
      /\ mlfq_state 1%nat (kern (run (stale ++ [Tick; Tick]))) = Some (18, 1)).
Proof.
  split.
  { split; [apply wf_quantum_nearly_used|apply map_Forall_empty]. }
  split; [reflexivity|].
  split; [split; [vm_compute; by eexists|by vm_compute]|].
  split; [split; [vm_compute; by eexists|by vm_compute]|].
  split; [vm_compute; by eexists|by vm_compute].
Qed.
